(** * AI Meeting Prep Agent: the output parser, the corpus builder and the
      orchestrator of [app.py]

    Python strings are sequences of Unicode code points; a code point is a
    number here, so that every Python string is covered and not only the
    ASCII ones.  String literals of the source are written with [lit]. *)

From stdpp Require Import gmap list strings.

Local Open Scope N_scope.
Local Open Scope list_scope.

(** ** Text *)

Abbreviation char := N.
Abbreviation str := (list N).

(** An ASCII literal of the source as a Python string. *)
Definition lit (s : string) : str :=
  map Ascii.N_of_ascii (String.list_ascii_of_string s).

Definition NL : char := 10.
Definition HASH : char := 35.

(** [str.isspace] on one character, which is also what [\s] matches in a
    [str] pattern: CPython's [_PyUnicode_IsWhitespace]. *)
Definition isspace (c : char) : bool :=
  ((9 <=? c) && (c <=? 13)) || ((28 <=? c) && (c <=? 32))
  || (c =? 133) || (c =? 160) || (c =? 5760)
  || ((8192 <=? c) && (c <=? 8202))
  || (c =? 8232) || (c =? 8233) || (c =? 8239) || (c =? 8287) || (c =? 12288).

(** [s.lstrip()], [s.rstrip()] and [s.strip()] without argument. *)
Fixpoint lstrip (s : str) : str :=
  match s with
  | c :: t => if isspace c then lstrip t else s
  | [] => []
  end.

Definition rstrip (s : str) : str := rev (lstrip (rev s)).

Definition strip (s : str) : str := rstrip (lstrip s).

(** ** The fragment of Python's [re] that the parser's pattern uses

    A backtracking matcher in continuation-passing style: [exec r s g k]
    matches [r] at the front of [s], hands the rest of the input and the
    groups to [k], and moves to the next alternative when [k] fails, in
    the order in which [re] tries them. *)

Inductive cclass :=
| CLit (c : char)   (* a literal character *)
| CSpace            (* \s *)
| CAny.             (* . under re.DOTALL *)

Definition cclass_match (k : cclass) (c : char) : bool :=
  match k with
  | CLit d => c =? d
  | CSpace => isspace c
  | CAny => true
  end.

Inductive regex :=
| Eps
| Chr (k : cclass)
| Eos                         (* $ without re.MULTILINE *)
| Seq (r1 r2 : regex)
| Alt (r1 r2 : regex)
| Star (k : cclass)           (* k*  greedy *)
| LazyStar (k : cclass)       (* k*? lazy *)
| Group (n : nat) (r : regex) (* capturing group number n *)
| Look (r : regex).           (* (?=r) *)

Abbreviation groups := (gmap nat str).
Abbreviation answer := (option (str * gmap nat str)).

Definition orelse (a b : answer) : answer :=
  match a with Some x => Some x | None => b end.

Fixpoint exec (r : regex) (s : str) (g : groups)
    (k : str -> groups -> answer) {struct r} : answer :=
  match r with
  | Eps => k s g
  | Chr c =>
      match s with
      | x :: t => if cclass_match c x then k t g else None
      | [] => None
      end
  | Eos =>
      match s with
      | [] => k s g
      | [x] => if x =? NL then k s g else None
      | _ => None
      end
  | Seq r1 r2 => exec r1 s g (fun s' g' => exec r2 s' g' k)
  | Alt r1 r2 => orelse (exec r1 s g k) (exec r2 s g k)
  | Star c =>
      (fix star (u : str) : answer :=
         match u with
         | x :: t => if cclass_match c x then orelse (star t) (k u g) else k u g
         | [] => k u g
         end) s
  | LazyStar c =>
      (fix lazy (u : str) : answer :=
         orelse (k u g)
           match u with
           | x :: t => if cclass_match c x then lazy t else None
           | [] => None
           end) s
  | Group n r1 =>
      exec r1 s g
        (fun s' g' => k s' (<[n := take (length s - length s') s]> g'))
  | Look r1 =>
      match exec r1 s g (fun s' g' => Some (s', g')) with
      | Some (_, g') => k s g'
      | None => None
      end
  end.

Arguments exec : simpl never.

(** The literal string [w] as a pattern. *)
Definition Str (w : str) : regex :=
  foldr (fun c r => Seq (Chr (CLit c)) r) Eps w.

(** One match attempt at the front of [s]: the rest of the input after the
    match, and the groups. *)
Definition match_at (r : regex) (s : str) : answer :=
  exec r s ∅ (fun s' g' => Some (s', g')).

Definition group (g : groups) (n : nat) : str := default [] (g !! n).

(** [re.findall] for a pattern with two groups: the scan goes left to
    right, a match is looked for at the current position, the next search
    starts where the match ended (one character further after an empty
    match or no match).  [fuel] bounds the number of positions visited. *)
Fixpoint findall_from (fuel : nat) (r : regex) (s : str) : list (str * str) :=
  match fuel with
  | O => []
  | S fuel' =>
      let next := match s with [] => [] | _ :: t => findall_from fuel' r t end in
      match match_at r s with
      | Some (rest, g) =>
          (group g 1, group g 2) ::
            (if (length rest <? length s)%nat then findall_from fuel' r rest
             else next)
      | None => next
      end
  end.

Definition findall (r : regex) (s : str) : list (str * str) :=
  findall_from (S (length s)) r s.

(** ** [parse_final_output] *)

Definition SUMMARY : str := lit "SUMMARY".
Definition KEY_DISCUSSION_POINTS : str := lit "KEY DISCUSSION POINTS".
Definition ACTION_ITEMS : str := lit "ACTION ITEMS".
Definition SUGGESTED_QUESTIONS : str := lit "SUGGESTED QUESTIONS".
Definition RISKS_AND_MISSING_INFO : str := lit "RISKS AND MISSING INFO".
Definition MEETING_SCRIPT : str := lit "MEETING SCRIPT".

Definition HEADERS : list str :=
  [SUMMARY; KEY_DISCUSSION_POINTS; ACTION_ITEMS; SUGGESTED_QUESTIONS;
   RISKS_AND_MISSING_INFO; MEETING_SCRIPT].

(** The dict literal that [sections] starts from. *)
Definition sections0 : gmap str str :=
  <[MEETING_SCRIPT := []]> (<[RISKS_AND_MISSING_INFO := []]>
  (<[SUGGESTED_QUESTIONS := []]> (<[ACTION_ITEMS := []]>
  (<[KEY_DISCUSSION_POINTS := []]> (<[SUMMARY := []]> ∅))))).

(** (SUMMARY|KEY DISCUSSION POINTS|ACTION ITEMS|SUGGESTED QUESTIONS|RISKS AND MISSING INFO|MEETING SCRIPT) *)
Definition header_alt : regex :=
  Alt (Str SUMMARY) (Alt (Str KEY_DISCUSSION_POINTS) (Alt (Str ACTION_ITEMS)
  (Alt (Str SUGGESTED_QUESTIONS) (Alt (Str RISKS_AND_MISSING_INFO)
  (Str MEETING_SCRIPT))))).

(** (?=\n#|$) *)
Definition body_end : regex := Look (Alt (Str [NL; HASH]) Eos).

(** #\s*(...)\s*(.*?)(?=\n#|$) with re.DOTALL *)
Definition pattern : regex :=
  Seq (Chr (CLit HASH)) (Seq (Star CSpace) (Seq (Group 1 header_alt)
  (Seq (Star CSpace) (Seq (Group 2 (LazyStar CAny)) body_end)))).

(** The loop [for header, content in matches: sections[header] = content.strip()]. *)
Definition assign (sections : gmap str str) (m : str * str) : gmap str str :=
  <[m.1 := strip m.2]> sections.

Definition parse_final_output (output : str) : gmap str str :=
  foldl assign sections0 (findall pattern output).

(** ** What one match attempt of [pattern] does, read off the pattern

    [scan_at] is the match attempt written as a direct scanner:
    a '#', the white space after it, the first header name the input
    continues with, the white space after the name, and the shortest body
    after which the lookahead holds.  [match_at_pattern] below proves that
    [match_at pattern] computes exactly this. *)

Fixpoint strip_prefix (w s : str) : option str :=
  match w, s with
  | [], _ => Some s
  | c :: w', x :: t => if x =? c then strip_prefix w' t else None
  | _ :: _, [] => None
  end.

Fixpoint first_header (hs : list str) (s : str) : option (str * str) :=
  match hs with
  | [] => None
  | h :: hs' =>
      match strip_prefix h s with
      | Some t => Some (h, t)
      | None => first_header hs' s
      end
  end.

(** The lookahead (?=\n#|$) at the front of [s]. *)
Definition at_body_end (s : str) : bool :=
  match s with
  | [] => true
  | [x] => x =? NL
  | x :: y :: _ => (x =? NL) && (y =? HASH)
  end.

(** The lazy (.*?): the shortest prefix after which the lookahead holds,
    and the input from there. *)
Fixpoint body_split (s : str) : str * str :=
  match s with
  | [] => ([], [])
  | c :: t =>
      if at_body_end s then ([], s)
      else let '(b, rest) := body_split t in (c :: b, rest)
  end.

Definition scan_at (s : str) : option (str * str * str) :=
  match s with
  | c :: t =>
      if c =? HASH then
        match first_header HEADERS (lstrip t) with
        | Some (h, u) =>
            let '(b, rest) := body_split (lstrip u) in Some (h, b, rest)
        | None => None
        end
      else None
  | [] => None
  end.

(** ** Shapes of text that the properties speak about *)

(** No newline is immediately followed by '#'. *)
Fixpoint nl_hash_free (s : str) : bool :=
  match s with
  | [] => true
  | x :: t =>
      negb ((x =? NL) && match t with y :: _ => y =? HASH | [] => false end)
      && nl_hash_free t
  end.

(** The lines of [s], split at newlines. *)
Fixpoint lines (s : str) : list str :=
  match s with
  | [] => [[]]
  | c :: t =>
      if c =? NL then [] :: lines t
      else match lines t with
           | l :: ls => (c :: l) :: ls
           | [] => [[c]]
           end
  end.

Definition starts_with_hash (l : str) : bool :=
  match l with c :: _ => c =? HASH | [] => false end.

(** A line that is a '#', optional white space and a canonical header name,
    possibly followed by more text. *)
Definition is_header_line (l : str) : bool :=
  match l with
  | c :: t => (c =? HASH) && bool_decide (is_Some (first_header HEADERS (lstrip t)))
  | [] => false
  end.

(** No line of [s] begins with '#'. *)
Definition hash_line_free (s : str) : bool :=
  forallb (fun l => negb (starts_with_hash l)) (lines s).

(** No line of [s] begins with '#' followed by a canonical header name. *)
Definition header_line_free (s : str) : bool :=
  forallb (fun l => negb (is_header_line l)) (lines s).

(** Some '#' of [s] is the first character of a line. *)
Definition has_line_leading_hash (s : str) : bool :=
  existsb starts_with_hash (lines s).

(** "# HEADER\nBODY\n" for one section, and for a sequence of sections. *)
Definition section_text (hb : str * str) : str :=
  lit "# " ++ hb.1 ++ [NL] ++ hb.2 ++ [NL].

Definition report (l : list (str * str)) : str :=
  concat (map section_text l).

(** A body that the parser gives back: it has a character that is not
    white space, and no newline immediately followed by '#'. *)
Definition plain_body (b : str) : Prop :=
  strip b ≠ [] ∧ nl_hash_free b = true.

(** ** The document corpus: the upload loop at module level *)

Record UploadedFile := {
  type : str;               (* f.type, the media type *)
  getvalue : list Byte.byte      (* f.getvalue(), the raw content *)
}.

Definition truthy (s : str) : bool :=
  match s with [] => false | _ :: _ => true end.

Section Corpus.
(** PyPDF2 and the UTF-8 codec are outside the program:
    [page_texts] is what [page.extract_text()] gives for each page of
    [PdfReader(file).pages] ([None] where it gives no text), and
    [decode_utf8] is [bytes.decode("utf-8")], [None] where it raises.
    [page_texts] stands for a reader that reads the file: a PDF on which
    [PdfReader] or [extract_text] raises is outside this parameter, so what
    is said below about a raising upload loop is said of uploads whose PDFs
    are read, or is stated for files that are no PDFs. *)
Variable page_texts : list Byte.byte -> list (option str).
Variable decode_utf8 : list Byte.byte -> option str.

Definition extract_pdf_text (file : UploadedFile) : str :=
  foldl (fun text page =>
           match page with
           | Some t => if truthy t then text ++ t ++ [NL] else text
           | None => text
           end) [] (page_texts (getvalue file)).

(** One turn of the loop; [None] when the decoding raises. *)
Definition add_file (full_text : str) (f : UploadedFile) : option str :=
  if bool_decide (type f = lit "application/pdf")
  then Some (full_text ++ extract_pdf_text f ++ [NL])
  else t ← decode_utf8 (getvalue f); Some (full_text ++ t ++ [NL]).

Fixpoint add_files (full_text : str) (uploaded : list UploadedFile) : option str :=
  match uploaded with
  | [] => Some full_text
  | f :: fs => full_text' ← add_file full_text f; add_files full_text' fs
  end.

(** [full_text] after the loop; [if uploaded:] skips the loop for an
    empty list. *)
Definition build_full_text (uploaded : list UploadedFile) : option str :=
  match uploaded with
  | [] => Some []
  | _ :: _ => add_files [] uploaded
  end.
End Corpus.

(** ** [run_meeting_prep_crew] *)

Record LLM := { model : str; temperature : str (* the decimal literal *) }.

Record Agent := {
  role : str; goal : str; backstory : str; llm : LLM
}.

Record Task := {
  description : str; expected_output : str; agent : Agent
}.

Inductive Process := sequential | hierarchical.

Record Crew := {
  agents : list Agent; tasks : list Task; process : Process; verbose : bool
}.

(** What [crew.kickoff()] gives back: the attributes the code probes with
    [hasattr] ([None] for a missing attribute) and [str(result)]. *)
Record CrewOutput := {
  raw_output : option str;
  final_output : option str;
  output : option str;
  to_str : str
}.

Definition attr_truthy (a : option str) : bool :=
  match a with Some s => truthy s | None => false end.

Definition GEMINI_API_KEY : str := lit "GEMINI_API_KEY".

Definition ERROR_MESSAGE : str :=
  lit "ERROR: GEMINI_API_KEY missing in environment.".

(** The en dash of "2–3 paragraphs." *)
Definition EN_DASH : char := 8211.

Definition t6_description : str :=
  [NL] ++ lit "Use all previous results and produce the final structured output:"
  ++ [NL; NL] ++ lit "# SUMMARY" ++ [NL] ++ lit "<summary>"
  ++ [NL; NL] ++ lit "# KEY DISCUSSION POINTS" ++ [NL] ++ lit "<points>"
  ++ [NL; NL] ++ lit "# ACTION ITEMS" ++ [NL] ++ lit "<items>"
  ++ [NL; NL] ++ lit "# SUGGESTED QUESTIONS" ++ [NL] ++ lit "<questions>"
  ++ [NL; NL] ++ lit "# RISKS AND MISSING INFO" ++ [NL] ++ lit "<risks>"
  ++ [NL; NL] ++ lit "# MEETING SCRIPT" ++ [NL] ++ lit "<script>"
  ++ [NL] ++ lit "        ".

(** How a call ends: with a value, or with an exception on its way up. *)
Inductive outcome (Exn A : Type) :=
| Returned (a : A)
| Raised (e : Exn).
Arguments Returned {Exn A} a.
Arguments Raised {Exn A} e.

Section Orchestrator.
(** The crew library and the model behind it are outside the program:
    [Exn] is what [crew.kickoff()] can raise, and [crew_kickoff] is what
    a kickoff of a given crew does.  Every generation call happens inside
    a kickoff. *)
Variable Exn : Type.
Variable crew_kickoff : Crew -> Exn + CrewOutput.

(** Computations that log the crews they kick off. *)
Definition M (A : Type) : Type := list Crew -> outcome Exn A * list Crew.

Definition ret {A} (a : A) : M A := fun log => (Returned a, log).

Definition bind {A B} (m : M A) (f : A -> M B) : M B :=
  fun log =>
    match m log with
    | (Returned a, log') => f a log'
    | (Raised e, log') => (Raised e, log')
    end.

Definition kickoff (crew : Crew) : M CrewOutput :=
  fun log =>
    match crew_kickoff crew with
    | inl e => (Raised e, log ++ [crew])
    | inr result => (Returned result, log ++ [crew])
    end.

(** The crew that is built from [text]. *)
Definition build_crew (text : str) : Crew :=
  let gemini_llm := {| model := lit "gemini/gemini-2.5-flash"; temperature := lit "0.1" |} in
  let summarizer := {| role := lit "Document Summarizer";
                       goal := lit "Summarize documents clearly.";
                       backstory := lit "Expert in condensing long text.";
                       llm := gemini_llm |} in
  let points := {| role := lit "Discussion Point Extractor";
                   goal := lit "Extract key points.";
                   backstory := lit "Senior analyst.";
                   llm := gemini_llm |} in
  let actions := {| role := lit "Action Item Extractor";
                    goal := lit "Find all tasks.";
                    backstory := lit "Project manager.";
                    llm := gemini_llm |} in
  let questions := {| role := lit "Question Generator";
                      goal := lit "Generate 5 critical questions.";
                      backstory := lit "Advisor.";
                      llm := gemini_llm |} in
  let risks := {| role := lit "Risk Analyst";
                  goal := lit "Find risks and missing info.";
                  backstory := lit "Risk specialist.";
                  llm := gemini_llm |} in
  let script := {| role := lit "Report Compiler";
                   goal := lit "Create final structured meeting prep report.";
                   backstory := lit "Lead coordinator.";
                   llm := gemini_llm |} in
  let t1 := {| description := lit "Summarize:" ++ [NL] ++ text;
               expected_output := lit "2" ++ [EN_DASH] ++ lit "3 paragraphs.";
               agent := summarizer |} in
  let t2 := {| description := lit "List 3" ++ [EN_DASH] ++ lit "5 strategic discussion points.";
               expected_output := lit "Bulleted list.";
               agent := points |} in
  let t3 := {| description := lit "Extract ALL action items.";
               expected_output := lit "Action list.";
               agent := actions |} in
  let t4 := {| description := lit "Generate exactly 5 questions.";
               expected_output := lit "List of 5 questions.";
               agent := questions |} in
  let t5 := {| description := lit "Identify risks and missing information.";
               expected_output := lit "Paragraph.";
               agent := risks |} in
  let t6 := {| description := t6_description;
               expected_output := lit "Formatted final output";
               agent := script |} in
  {| agents := [summarizer; points; actions; questions; risks; script];
     tasks := [t1; t2; t3; t4; t5; t6];
     process := sequential;
     verbose := false |}.

(** The string taken out of the kickoff's result. *)
Definition result_string (result : CrewOutput) : str :=
  if attr_truthy (raw_output result) then default [] (raw_output result)
  else if attr_truthy (final_output result) then default [] (final_output result)
  else if attr_truthy (output result) then default [] (output result)
  else to_str result.

Definition run_meeting_prep_crew (environ : gmap str str) (full_text : str) : M str :=
  if negb (attr_truthy (environ !! GEMINI_API_KEY)) then ret ERROR_MESSAGE
  else
    let text := take (Z.to_nat 100000) full_text in
    bind (kickoff (build_crew text)) (fun result => ret (result_string result)).

(** The tasks handed to the generation capability by the crews in a log. *)
Definition generation_tasks (log : list Crew) : list Task :=
  concat (map tasks log).
End Orchestrator.

Arguments run_meeting_prep_crew {Exn} crew_kickoff environ full_text _.
Arguments generation_tasks log : simpl never.

(** ** Further shapes of text *)

(** A section whose heading has [k] more '#' in front, and a report of
    such sections: "## HEADER\nBODY\n" for [k = 1]. *)
Definition heading (k : nat) (hb : str * str) : str :=
  replicate k HASH ++ section_text hb.

Definition report_at_level (k : nat) (l : list (str * str)) : str :=
  concat (map (heading k) l).

(** The six sections of a mapping written out again as a report. *)
Definition rerender (sections : gmap str str) : str :=
  report (map (fun h => (h, default [] (sections !! h))) HEADERS).

(** [b] occurs in [s] as a piece of consecutive characters. *)
Definition occurs_in (b s : str) : Prop := ∃ u v, s = u ++ b ++ v.

(** [h] occurs in [s] behind a '#' and optional white space. *)
Definition marked_in (h s : str) : Prop :=
  ∃ u w v, s = u ++ [HASH] ++ w ++ h ++ v ∧ forallb isspace w = true.

(** A match [(header, content)] whose parts stand in [s]. *)
Definition match_in (s : str) (m : str * str) : Prop :=
  marked_in m.1 s ∧ occurs_in m.2 s.

(** ** Pieces of the corpus *)

(** What one page of a PDF adds to the extracted text. *)
Definition page_line (page : option str) : str :=
  match page with
  | Some t => if truthy t then t ++ [NL] else []
  | None => []
  end.

(** The text of one uploaded file, before the newline the loop appends:
    the extracted text of a PDF, the decoded content otherwise. *)
Definition file_text (page_texts : list Byte.byte -> list (option str))
    (decode_utf8 : list Byte.byte -> option str) (f : UploadedFile) : option str :=
  if bool_decide (type f = lit "application/pdf")
  then Some (extract_pdf_text page_texts f)
  else decode_utf8 (getvalue f).

(** A text file that the codec rejects. *)
Definition undecodable (decode_utf8 : list Byte.byte -> option str)
    (f : UploadedFile) : Prop :=
  type f ≠ lit "application/pdf" ∧ decode_utf8 (getvalue f) = None.

(** ** The page script: the statements at module level from the title on

    One run of the script.  What the widgets give back is an input
    ([uploaded] for the file uploader, [button] for "Run Agents"); what the
    script shows is a list of events; [st.session_state] and the crews that
    were kicked off are state. *)

Inductive ui_event :=
| st_title (body : str)
| st_write (body : str)
| st_file_uploader (label : str)
| st_button (label : str)
| st_warning (body : str)
| st_spinner (text : str)
| st_success (body : str)
| st_expander (label : str)
| st_code (body : str)
| st_tabs (tabs : list str)
| st_text_area (label value : str) (height : Z).

Record page := {
  session_state : gmap str str;
  kickoffs : list Crew;
  ui : list ui_event
}.

(** What can end the script early: [st.stop()], or an exception. *)
Inductive script_exn (Exn : Type) :=
| UnicodeDecodeError
| KeyError (key : str)
| CrewError (e : Exn).
Arguments UnicodeDecodeError {Exn}.
Arguments KeyError {Exn} key.
Arguments CrewError {Exn} e.

Inductive step (Exn A : Type) :=
| Value (a : A)
| Halt
| Crash (e : script_exn Exn).
Arguments Value {Exn A} a.
Arguments Halt {Exn A}.
Arguments Crash {Exn A} e.

Definition RAW_OUTPUT : str := lit "raw_output".

Definition TITLE : str := [129504] ++ lit " Multi-Agent AI Meeting Prep Agent".

Definition INTRO : str :=
  lit "Upload one or more documents and generate a complete meeting preparation package.".

Definition SPINNER : str :=
  lit "Running AI Agents... This may take 5" ++ [EN_DASH] ++ lit "15 seconds...".

Definition EXPANDER : str := [128030] ++ lit " RAW OUTPUT (Click to expand)".

Definition TABS : list str :=
  [[128196] ++ lit " Summary"; [128161] ++ lit " Key Points";
   [9989] ++ lit " Action Items"; [10067] ++ lit " Questions";
   [9888; 65039] ++ lit " Risks"; [128483; 65039] ++ lit " Script"].

Section Page.
Variable page_texts : list Byte.byte -> list (option str).
Variable decode_utf8 : list Byte.byte -> option str.
Variable Exn : Type.
Variable crew_kickoff : Crew -> Exn + CrewOutput.

Definition Script (A : Type) : Type := page -> step Exn A * page.

#[local] Instance script_ret : MRet Script := fun A a p => (Value a, p).

#[local] Instance script_bind : MBind Script := fun A B f m p =>
  match m p with
  | (Value a, p') => f a p'
  | (Halt, p') => (Halt, p')
  | (Crash e, p') => (Crash e, p')
  end.

Definition emit (ev : ui_event) : Script unit := fun p =>
  (Value tt,
   {| session_state := session_state p; kickoffs := kickoffs p;
      ui := ui p ++ [ev] |}).

Definition st_stop {A} : Script A := fun p => (Halt, p).

Definition raise {A} (e : script_exn Exn) : Script A := fun p => (Crash e, p).

(** [st.session_state[key] = value] *)
Definition set_session (key value : str) : Script unit := fun p =>
  (Value tt,
   {| session_state := <[key := value]> (session_state p);
      kickoffs := kickoffs p; ui := ui p |}).

Definition get_session : Script (gmap str str) := fun p =>
  (Value (session_state p), p).

(** A call of [run_meeting_prep_crew] from the script. *)
Definition call (m : M Exn str) : Script str := fun p =>
  match m (kickoffs p) with
  | (Returned a, log) =>
      (Value a, {| session_state := session_state p; kickoffs := log; ui := ui p |})
  | (Raised e, log) =>
      (Crash (CrewError e),
       {| session_state := session_state p; kickoffs := log; ui := ui p |})
  end.

(** [parsed[key]] *)
Definition subscript (parsed : gmap str str) (key : str) : Script str :=
  match parsed !! key with
  | Some v => mret v
  | None => raise (KeyError key)
  end.

(** [with t: st.text_area(label, parsed[key], height=height)] *)
Definition text_area (label : str) (parsed : gmap str str) (key : str)
    (height : Z) : Script unit :=
  v ← subscript parsed key; emit (st_text_area label v height).

(** The output display. *)
Definition display : Script unit :=
  state ← get_session;
  match state !! RAW_OUTPUT with
  | Some raw =>
      emit (st_expander EXPANDER);;
      emit (st_code raw);;
      let parsed := parse_final_output raw in
      emit (st_tabs TABS);;
      text_area (lit "Summary") parsed SUMMARY 300;;
      text_area (lit "Key Discussion Points") parsed KEY_DISCUSSION_POINTS 300;;
      text_area (lit "Action Items") parsed ACTION_ITEMS 300;;
      text_area (lit "Suggested Questions") parsed SUGGESTED_QUESTIONS 300;;
      text_area (lit "Risks & Missing Info") parsed RISKS_AND_MISSING_INFO 300;;
      text_area (lit "Meeting Script") parsed MEETING_SCRIPT 400
  | None => mret tt
  end.

(** The body of [if st.button("Run Agents"):]. *)
Definition run_agents (environ : gmap str str) (full_text : str) : Script unit :=
  (if negb (truthy (strip full_text))
   then emit (st_warning (lit "Please upload at least 1 document."));; st_stop
   else mret tt);;
  emit (st_spinner SPINNER);;
  final_output ← call (run_meeting_prep_crew crew_kickoff environ full_text);
  set_session RAW_OUTPUT final_output;;
  emit (st_success (lit "Processing complete!")).

Definition main_ui (uploaded : list UploadedFile) (button : bool)
    (environ : gmap str str) : Script unit :=
  emit (st_title TITLE);;
  emit (st_write INTRO);;
  emit (st_file_uploader (lit "Upload files (PDF or TXT)"));;
  full_text ← match build_full_text page_texts decode_utf8 uploaded with
              | Some t => mret t
              | None => raise UnicodeDecodeError
              end;
  emit (st_button (lit "Run Agents"));;
  (if button then run_agents environ full_text else mret tt);;
  display.

(** The page at the start of a run of the script. *)
Definition fresh (state : gmap str str) : page :=
  {| session_state := state; kickoffs := []; ui := [] |}.
End Page.

Arguments main_ui page_texts decode_utf8 {Exn} crew_kickoff uploaded button environ _.
Arguments display {Exn} _.

(** The events of the output display for a stored raw output. *)
Definition panels (raw : str) : list ui_event :=
  let parsed := parse_final_output raw in
  [st_expander EXPANDER; st_code raw; st_tabs TABS;
   st_text_area (lit "Summary") (default [] (parsed !! SUMMARY)) 300;
   st_text_area (lit "Key Discussion Points")
     (default [] (parsed !! KEY_DISCUSSION_POINTS)) 300;
   st_text_area (lit "Action Items") (default [] (parsed !! ACTION_ITEMS)) 300;
   st_text_area (lit "Suggested Questions")
     (default [] (parsed !! SUGGESTED_QUESTIONS)) 300;
   st_text_area (lit "Risks & Missing Info")
     (default [] (parsed !! RISKS_AND_MISSING_INFO)) 300;
   st_text_area (lit "Meeting Script") (default [] (parsed !! MEETING_SCRIPT)) 400].

(** The events every run starts with. *)
Definition HEAD_EVENTS : list ui_event :=
  [st_title TITLE; st_write INTRO; st_file_uploader (lit "Upload files (PDF or TXT)")].

(** ** Sample inputs *)

(** Two SUMMARY blocks. *)
Definition twice_summary : str :=
  lit "# SUMMARY" ++ [NL] ++ lit "first" ++ [NL] ++
  lit "# SUMMARY" ++ [NL] ++ lit "second" ++ [NL].

(** A section with a line "#note" that is no header. *)
Definition summary_with_note : str :=
  lit "# SUMMARY" ++ [NL] ++ lit "a" ++ [NL] ++ lit "#note" ++ [NL] ++ lit "more".

(** Six bodies for the six headers, in canonical order. *)
Definition bodies_plain : list str :=
  [lit "two" ++ [NL] ++ lit "lines"; lit "- k"; lit "#1 a"; lit "q?"; lit "r"; lit "m"].

Definition bodies_padded : list str :=
  [lit " x"; lit "k"; lit "a"; lit "q"; lit "r"; lit "m"].

Definition bodies_first_empty : list str :=
  [[]; lit "k"; lit "a"; lit "q"; lit "r"; lit "m"].

Definition bodies_with_note : list str :=
  [lit "a" ++ [NL] ++ lit "#b"; lit "k"; lit "a"; lit "q"; lit "r"; lit "m"].

(** Sections with ACTION ITEMS first. *)
Definition sections_shuffled : list (str * str) :=
  [(ACTION_ITEMS, lit " a "); (SUMMARY, lit "s"); (MEETING_SCRIPT, lit "m");
   (KEY_DISCUSSION_POINTS, lit "k"); (RISKS_AND_MISSING_INFO, lit "r");
   (SUGGESTED_QUESTIONS, lit "q")].

Definition sections_shuffled_note : list (str * str) :=
  [(ACTION_ITEMS, lit "a" ++ [NL] ++ lit "#1 note"); (SUMMARY, lit "s");
   (MEETING_SCRIPT, lit "m"); (KEY_DISCUSSION_POINTS, lit "k");
   (RISKS_AND_MISSING_INFO, lit "r"); (SUGGESTED_QUESTIONS, lit "q")].

Definition sections_shuffled_empty : list (str * str) :=
  [(ACTION_ITEMS, []); (SUMMARY, lit "s");
   (MEETING_SCRIPT, lit "m"); (KEY_DISCUSSION_POINTS, lit "k");
   (RISKS_AND_MISSING_INFO, lit "r"); (SUGGESTED_QUESTIONS, lit "q")].

(** A header in the middle of a line, before any section. *)
Definition midline_header : str := lit "ab # SUMMARY cd".

(** UTF-8 decoding on input that is ASCII; it raises on any other byte
    here, which stands for the inputs outside this sample decoder. *)
Definition decode_ascii (bs : list Byte.byte) : option str :=
  mapM (fun b => if Byte.to_N b <? 128 then Some (Byte.to_N b) else None) bs.

Definition file_A : UploadedFile :=
  {| type := lit "text/plain"; getvalue := [Byte.x41] |}.

Definition file_B : UploadedFile :=
  {| type := lit "text/plain"; getvalue := [Byte.x42] |}.

(** What can come out of a failing run.  [LibraryFailure] is an exception
    of the crew library; [GenerationError] is the wrapper that names the
    failing step, which no path of [run_meeting_prep_crew] builds. *)
Inductive failure :=
| LibraryFailure (cause : str)
| GenerationError (step : str) (cause : failure).

Definition is_GenerationError (f : failure) : bool :=
  match f with GenerationError _ _ => true | LibraryFailure _ => false end.

Definition environ_with_key : gmap str str :=
  {[ GEMINI_API_KEY := lit "k" ]}.

(** A crew library whose every kickoff fails. *)
Definition failing_kickoff (crew : Crew) : failure + CrewOutput :=
  inl (LibraryFailure (lit "quota exceeded")).

(** A crew library whose kickoff gives a final report. *)
Definition reporting_kickoff (crew : Crew) : failure + CrewOutput :=
  inr {| raw_output := Some twice_summary; final_output := None;
         output := None; to_str := [] |}.

(** A PDF whose pages give "one", nothing and "two", and a text file
    that is not UTF-8. *)
Definition file_pdf : UploadedFile :=
  {| type := lit "application/pdf"; getvalue := [Byte.x25; Byte.x50] |}.

Definition pages_of_sample (content : list Byte.byte) : list (option str) :=
  [Some (lit "one"); None; Some []; Some (lit "two")].

Definition file_latin1 : UploadedFile :=
  {| type := lit "text/plain"; getvalue := [Byte.xe9] |}.

(** A scanned PDF: no page gives text. *)
Definition pages_of_scan (content : list Byte.byte) : list (option str) :=
  [None; Some []].

(** Sections in which SUMMARY occurs twice. *)
Definition sections_before : list (str * str) :=
  [(SUMMARY, lit " first "); (ACTION_ITEMS, lit "a")].

Definition sections_after : list (str * str) :=
  [(MEETING_SCRIPT, lit "m")].

Definition sections_repeated_note : list (str * str) :=
  [(SUMMARY, lit "first");
   (SUMMARY, lit "second" ++ [NL] ++ lit "#note" ++ [NL] ++ lit "more")].

Definition sections_repeated_empty : list (str * str) :=
  [(SUMMARY, []); (SUMMARY, lit "second")].

Definition repeated_midline : str := lit "# SUMMARY a # SUMMARY b".

(** A crew library whose result has no raw_output, no final_output and an
    empty output. *)
Definition bare_kickoff (crew : Crew) : failure + CrewOutput :=
  inr {| raw_output := None; final_output := None; output := Some [];
         to_str := twice_summary |}.

(** * Properties *)

(** ** White space and stripping *)

Lemma lstrip_app_space (ws x : str) :
  forallb isspace ws = true → lstrip (ws ++ x) = lstrip x.
Proof.
  induction ws as [|c ws IH]; simpl; [done|].
  intros [Hc Hws]%andb_prop. rewrite Hc. auto.
Qed.

Lemma lstrip_app (b x : str) : lstrip b ≠ [] → lstrip (b ++ x) = lstrip b ++ x.
Proof.
  induction b as [|c b IH]; simpl; [done|].
  destruct (isspace c); auto.
Qed.

Lemma lstrip_suffix (s : str) : ∃ w, s = w ++ lstrip s.
Proof.
  induction s as [|c s [w IH]]; simpl.
  - by exists [].
  - destruct (isspace c).
    + exists (c :: w). by rewrite <- app_comm_cons, <- IH.
    + by exists [].
Qed.

Lemma lstrip_length (s : str) : (length (lstrip s) ≤ length s)%nat.
Proof.
  destruct (lstrip_suffix s) as [w Hw]. rewrite Hw at 2.
  rewrite length_app. lia.
Qed.

Lemma lstrip_head (s : str) c t : lstrip s = c :: t → isspace c = false.
Proof.
  induction s as [|x s IH]; simpl; [done|].
  destruct (isspace x) eqn:Hx; [done|]. by intros [= <- _].
Qed.

Lemma lstrip_fixed (s : str) c t : lstrip s = c :: t → lstrip (c :: t) = c :: t.
Proof. intros H. simpl. by rewrite (lstrip_head _ _ _ H). Qed.

Lemma lstrip_idem (s : str) : lstrip (lstrip s) = lstrip s.
Proof.
  destruct (lstrip s) as [|c t] eqn:H; [done|]. by eapply lstrip_fixed.
Qed.

Lemma rstrip_prefix (s : str) : ∃ w, s = rstrip s ++ w.
Proof.
  unfold rstrip. destruct (lstrip_suffix (rev s)) as [w Hw].
  exists (rev w). rewrite <- rev_app_distr, <- Hw. by rewrite rev_involutive.
Qed.

Lemma rstrip_app_space (b : str) c : isspace c = true → rstrip (b ++ [c]) = rstrip b.
Proof. intros Hc. unfold rstrip. rewrite rev_unit. simpl. by rewrite Hc. Qed.

Lemma strip_lstrip (s : str) : strip (lstrip s) = strip s.
Proof. unfold strip. by rewrite lstrip_idem. Qed.

Lemma strip_nonempty_lstrip (b : str) : strip b ≠ [] → lstrip b ≠ [].
Proof. unfold strip. intros H E. rewrite E in H. by apply H. Qed.

(** ** No newline followed by '#' *)

Lemma nl_hash_free_app_r (a b : str) :
  nl_hash_free (a ++ b) = true → nl_hash_free b = true.
Proof.
  induction a as [|x a IH]; simpl; [done|].
  intros [_ H]%andb_prop. auto.
Qed.

Lemma nl_hash_free_app_l (a b : str) :
  nl_hash_free (a ++ b) = true → nl_hash_free a = true.
Proof.
  induction a as [|x a IH]; simpl; [done|].
  intros [H1 H2]%andb_prop. rewrite (IH H2), andb_true_r.
  destruct a as [|y a]; simpl in *; [|done].
  by rewrite andb_false_r.
Qed.

Lemma nl_hash_free_lstrip (s : str) :
  nl_hash_free s = true → nl_hash_free (lstrip s) = true.
Proof.
  destruct (lstrip_suffix s) as [w Hw]. rewrite Hw at 1.
  apply nl_hash_free_app_r.
Qed.

Lemma nl_hash_free_strip (s : str) :
  nl_hash_free s = true → nl_hash_free (strip s) = true.
Proof.
  intros H%nl_hash_free_lstrip. unfold strip.
  destruct (rstrip_prefix (lstrip s)) as [w Hw]. rewrite Hw in H.
  by eapply nl_hash_free_app_l.
Qed.

(** ** The matcher on the pieces of [pattern] *)

Lemma exec_Seq r1 r2 s g k :
  exec (Seq r1 r2) s g k = exec r1 s g (fun s' g' => exec r2 s' g' k).
Proof. reflexivity. Qed.

Lemma exec_Alt r1 r2 s g k :
  exec (Alt r1 r2) s g k = orelse (exec r1 s g k) (exec r2 s g k).
Proof. reflexivity. Qed.

Lemma exec_Group n r s g k :
  exec (Group n r) s g k =
  exec r s g (fun s' g' => k s' (<[n := take (length s - length s') s]> g')).
Proof. reflexivity. Qed.

Lemma exec_Star_cons c x t g k :
  exec (Star c) (x :: t) g k =
  if cclass_match c x then orelse (exec (Star c) t g k) (k (x :: t) g)
  else k (x :: t) g.
Proof. reflexivity. Qed.

Lemma exec_LazyStar_any s g k :
  exec (LazyStar CAny) s g k =
  orelse (k s g) match s with _ :: t => exec (LazyStar CAny) t g k | [] => None end.
Proof. by destruct s. Qed.

Lemma exec_Chr c s g k :
  exec (Chr c) s g k =
  match s with
  | x :: t => if cclass_match c x then k t g else None
  | [] => None
  end.
Proof. reflexivity. Qed.

Lemma exec_Eos s g k :
  exec Eos s g k =
  match s with
  | [] => k s g
  | [x] => if x =? NL then k s g else None
  | _ => None
  end.
Proof. reflexivity. Qed.

Lemma exec_Str w s g k :
  exec (Str w) s g k =
  match strip_prefix w s with Some t => k t g | None => None end.
Proof.
  revert s. induction w as [|c w IH]; intros s; [done|].
  change (Str (c :: w)) with (Seq (Chr (CLit c)) (Str w)).
  rewrite exec_Seq, exec_Chr. destruct s as [|x t]; [done|].
  cbn [cclass_match strip_prefix]. destruct (x =? c); [apply IH | done].
Qed.

Lemma exec_body_end s g k :
  exec body_end s g k = if at_body_end s then k s g else None.
Proof.
  unfold body_end.
  change (exec (Look ?r) s g k) with
    (match exec r s g (fun s' g' => Some (s', g')) with
     | Some (_, g') => k s g'
     | None => None
     end).
  rewrite exec_Alt, exec_Str, exec_Eos.
  destruct s as [|x [|y t]]; cbn [strip_prefix at_body_end orelse]; [done| |].
  - destruct (x =? NL); [|done]. reflexivity.
  - destruct (x =? NL); [|done]. by destruct (y =? HASH).
Qed.

Lemma strip_prefix_Some w s t : strip_prefix w s = Some t → s = w ++ t.
Proof.
  revert s. induction w as [|c w IH]; intros [|x s]; simpl; try congruence.
  destruct (N.eqb_spec x c); [|done]. intros ->%IH. by subst.
Qed.

Lemma strip_prefix_app w t : strip_prefix w (w ++ t) = Some t.
Proof. induction w as [|c w IH]; simpl; [done|]. by rewrite N.eqb_refl. Qed.

Lemma first_header_Some hs s h t :
  first_header hs s = Some (h, t) → h ∈ hs ∧ s = h ++ t.
Proof.
  induction hs as [|h' hs IH]; simpl; [done|].
  destruct (strip_prefix h' s) as [u|] eqn:E.
  - intros [= <- <-]. split; [left | by apply strip_prefix_Some].
  - intros [? ?]%IH. split; [by right | done].
Qed.

(** The greedy star takes all the white space when what follows the star
    then matches. *)
Lemma exec_Star_space_greedy s g k y :
  k (lstrip s) g = Some y → exec (Star CSpace) s g k = Some y.
Proof.
  induction s as [|x t IH]; [done|].
  rewrite exec_Star_cons. cbn [cclass_match lstrip].
  destruct (isspace x); [|done].
  intros H. by rewrite (IH H).
Qed.

(** It has to take all of it when what follows cannot start with white
    space. *)
Lemma exec_Star_space_all s g k :
  (∀ c t, isspace c = true → k (c :: t) g = None) →
  exec (Star CSpace) s g k = k (lstrip s) g.
Proof.
  intros Hk. induction s as [|x t IH]; [done|].
  rewrite exec_Star_cons. cbn [cclass_match lstrip].
  destruct (isspace x) eqn:Hx; [|done].
  rewrite IH, (Hk _ _ Hx). by destruct (k (lstrip t) g).
Qed.

Lemma body_split_app_eq v : (body_split v).1 ++ (body_split v).2 = v.
Proof.
  induction v as [|c t IH]; [done|].
  cbn [body_split]. destruct (at_body_end (c :: t)); [done|].
  destruct (body_split t) as [b rest]. simpl in *. by rewrite IH.
Qed.

(** The lazy star stops at the first place where the lookahead holds. *)
Lemma exec_lazy_body v p g :
  exec (LazyStar CAny) v g
    (fun s' g' =>
       exec body_end s' (<[2%nat := take (length (p ++ v) - length s') (p ++ v)]> g')
         (fun s'' g'' => Some (s'', g''))) =
  Some ((body_split v).2, <[2%nat := p ++ (body_split v).1]> g).
Proof.
  revert p. induction v as [|c t IH]; intros p.
  - rewrite exec_LazyStar_any, exec_body_end. simpl.
    by rewrite Nat.sub_0_r, firstn_all.
  - rewrite exec_LazyStar_any, exec_body_end. cbn [body_split].
    destruct (at_body_end (c :: t)).
    + simpl. rewrite length_app. simpl length.
      replace (length p + S (length t) - S (length t))%nat with (length p) by lia.
      by rewrite take_app_length, app_nil_r.
    + simpl orelse.
      replace (p ++ c :: t) with ((p ++ [c]) ++ t) by (by rewrite <- app_assoc).
      rewrite IH. destruct (body_split t) as [b rest]. simpl.
      by rewrite <- app_assoc.
Qed.

(** \s*(.*?)(?=\n#|$) after a header: it never fails. *)
Lemma exec_tail s g :
  exec (Seq (Star CSpace) (Seq (Group 2 (LazyStar CAny)) body_end)) s g
    (fun s' g' => Some (s', g')) =
  Some ((body_split (lstrip s)).2, <[2%nat := (body_split (lstrip s)).1]> g).
Proof.
  rewrite exec_Seq. apply exec_Star_space_greedy.
  rewrite exec_Seq, exec_Group.
  apply (exec_lazy_body (lstrip s) [] g).
Qed.

Lemma first_header_space c t :
  isspace c = true → first_header HEADERS (c :: t) = None.
Proof.
  intros Hc.
  assert (∀ d, isspace d = false → (c =? d) = false) as Hne.
  { intros d Hd. destruct (N.eqb_spec c d); [congruence | done]. }
  cbn. by rewrite !Hne.
Qed.

Lemma orelse_Some (a b : answer) : a ≠ None → orelse a b = a.
Proof. by destruct a. Qed.

Lemma exec_header_alt s g k :
  (∀ s' g', k s' g' ≠ None) →
  exec header_alt s g k =
  match first_header HEADERS s with Some (h, t) => k t g | None => None end.
Proof.
  intros Hk. unfold header_alt. rewrite !exec_Alt, !exec_Str.
  unfold HEADERS. cbn [first_header].
  repeat match goal with
  | |- context [strip_prefix ?h s] =>
      destruct (strip_prefix h s) as [?|];
      [ by apply orelse_Some | cbn [orelse] ]
  end.
  by destruct (strip_prefix MEETING_SCRIPT s).
Qed.

(** One match attempt of [pattern] is [scan_at]. *)
Lemma match_at_pattern s :
  match_at pattern s =
  match scan_at s with
  | Some (h, b, rest) => Some (rest, <[2%nat := b]> (<[1%nat := h]> ∅))
  | None => None
  end.
Proof.
  destruct s as [|c t]; [done|].
  unfold match_at, pattern, scan_at. rewrite exec_Seq.
  change (exec (Chr (CLit HASH)) (c :: t) ∅ ?k) with
    (if c =? HASH then k t ∅ else None).
  destruct (c =? HASH); [|done].
  set (tail := Seq (Star CSpace) (Seq (Group 2 (LazyStar CAny)) body_end)).
  assert (∀ u (g : groups),
    exec (Seq (Group 1 header_alt) tail) u g (fun s' g' => Some (s', g')) =
    match first_header HEADERS u with
    | Some (h, v) =>
        Some ((body_split (lstrip v)).2,
              <[2%nat := (body_split (lstrip v)).1]> (<[1%nat := h]> g))
    | None => None
    end) as Hhead.
  { intros u g. rewrite exec_Seq, exec_Group, exec_header_alt.
    - destruct (first_header HEADERS u) as [[h v]|] eqn:E; [|done].
      apply first_header_Some in E as [_ ->].
      unfold tail. rewrite exec_tail, length_app.
      replace (length h + length v - length v)%nat with (length h) by lia.
      by rewrite take_app_length.
    - intros s' g'. unfold tail. by rewrite exec_tail. }
  rewrite exec_Seq, exec_Star_space_all.
  - rewrite Hhead. destruct (first_header HEADERS (lstrip t)) as [[h v]|]; [|done].
    by destruct (body_split (lstrip v)).
  - intros d u Hd. by rewrite Hhead, first_header_space.
Qed.

(** ** The scan *)

Lemma findall_from_S n r s :
  findall_from (S n) r s =
  match match_at r s with
  | Some (rest, g) =>
      (group g 1, group g 2) ::
        (if (length rest <? length s)%nat then findall_from n r rest
         else match s with [] => [] | _ :: t => findall_from n r t end)
  | None => match s with [] => [] | _ :: t => findall_from n r t end
  end.
Proof. reflexivity. Qed.

(** More fuel than positions changes nothing: the scan is total. *)
Lemma findall_from_fuel r n m s :
  (length s < n)%nat → (length s < m)%nat →
  findall_from n r s = findall_from m r s.
Proof.
  revert m s. induction n as [|n IH]; intros [|m] s Hn Hm; try lia.
  rewrite !findall_from_S.
  assert (match s with [] => [] | _ :: t => findall_from n r t end =
          match s with [] => [] | _ :: t => findall_from m r t end) as Hnext.
  { destruct s as [|c t]; [done|]. simpl in *. apply IH; lia. }
  rewrite Hnext. destruct (match_at r s) as [[rest g]|]; [|done].
  destruct (length rest <? length s)%nat eqn:Hlt; [|done].
  apply Nat.ltb_lt in Hlt. f_equal. apply IH; lia.
Qed.

Lemma body_split_length v : (length (body_split v).2 ≤ length v)%nat.
Proof. rewrite <- (body_split_app_eq v) at 2. rewrite length_app. lia. Qed.

Lemma scan_at_shorter s h b rest :
  scan_at s = Some (h, b, rest) → (length rest < length s)%nat.
Proof.
  destruct s as [|c t]; [done|]. unfold scan_at.
  destruct (c =? HASH); [|done].
  destruct (first_header HEADERS (lstrip t)) as [[h' u]|] eqn:E; [|done].
  apply first_header_Some in E as [_ E].
  pose proof (body_split_length (lstrip u)) as H1.
  destruct (body_split (lstrip u)) as [b' rest']. intros [= _ _ <-]. simpl in H1.
  pose proof (lstrip_length u). pose proof (lstrip_length t).
  rewrite E, length_app in *. simpl. lia.
Qed.

Lemma findall_nil : findall pattern [] = [].
Proof. reflexivity. Qed.

Lemma findall_miss c t :
  scan_at (c :: t) = None → findall pattern (c :: t) = findall pattern t.
Proof.
  intros H. unfold findall. rewrite findall_from_S, match_at_pattern, H.
  reflexivity.
Qed.

Lemma findall_hit s h b rest :
  scan_at s = Some (h, b, rest) →
  findall pattern s = (h, b) :: findall pattern rest.
Proof.
  intros H. pose proof (scan_at_shorter _ _ _ _ H) as Hlt.
  unfold findall at 1. rewrite findall_from_S, match_at_pattern, H.
  apply Nat.ltb_lt in Hlt as Hlt'. rewrite Hlt'.
  f_equal. apply findall_from_fuel; lia.
Qed.

Lemma scan_at_not_hash c t : c ≠ HASH → scan_at (c :: t) = None.
Proof. intros H. unfold scan_at. by destruct (N.eqb_spec c HASH). Qed.

(** Text without '#' in front of the input is skipped. *)
Lemma findall_skip pre s :
  HASH ∉ pre → findall pattern (pre ++ s) = findall pattern s.
Proof.
  induction pre as [|c pre IH]; [done|].
  intros [Hc Hpre]%not_elem_of_cons. simpl.
  rewrite findall_miss; [auto | by apply scan_at_not_hash].
Qed.

(** Every match names a canonical header, and its content has no newline
    followed by '#'. *)
Lemma body_split_cons v y b rest :
  body_split v = (y :: b, rest) → ∃ t, v = y :: t.
Proof.
  destruct v as [|c t]; [done|]. cbn [body_split].
  destruct (at_body_end (c :: t)); [done|].
  destruct (body_split t). intros [= -> _ _]. by exists t.
Qed.

Lemma body_split_free v : nl_hash_free (body_split v).1 = true.
Proof.
  induction v as [|c t IH]; [done|]. cbn [body_split].
  destruct (at_body_end (c :: t)) eqn:Hend; [done|].
  destruct (body_split t) as [b rest] eqn:Hb. simpl in *. rewrite IH, andb_true_r.
  destruct b as [|y b]; [by rewrite andb_false_r|].
  apply body_split_cons in Hb as [t' ->]. simpl in Hend. by rewrite Hend.
Qed.

Lemma scan_at_sound s h b rest :
  scan_at s = Some (h, b, rest) → h ∈ HEADERS ∧ nl_hash_free b = true.
Proof.
  destruct s as [|c t]; [done|]. unfold scan_at.
  destruct (c =? HASH); [|done].
  destruct (first_header HEADERS (lstrip t)) as [[h' u]|] eqn:E; [|done].
  apply first_header_Some in E as [Hh _].
  pose proof (body_split_free (lstrip u)) as Hfree.
  destruct (body_split (lstrip u)). by intros [= <- <- _].
Qed.

Lemma group_1 h b : group (<[2%nat := b]> (<[1%nat := h]> ∅)) 1 = h.
Proof. unfold group. by rewrite lookup_insert_ne, lookup_insert_eq. Qed.

Lemma group_2 h b : group (<[2%nat := b]> (<[1%nat := h]> ∅)) 2 = b.
Proof. unfold group. by rewrite lookup_insert_eq. Qed.

Lemma findall_from_sound n s :
  Forall (fun m => m.1 ∈ HEADERS ∧ nl_hash_free m.2 = true)
    (findall_from n pattern s).
Proof.
  revert s. induction n as [|n IH]; intros s; [by constructor|].
  rewrite findall_from_S, match_at_pattern.
  assert (Forall (fun m => m.1 ∈ HEADERS ∧ nl_hash_free m.2 = true)
            match s with [] => [] | _ :: t => findall_from n pattern t end) as Hnext.
  { destruct s; [by constructor | apply IH]. }
  destruct (scan_at s) as [[[h b] rest]|] eqn:E; [|done].
  constructor.
  - rewrite group_1, group_2. by eapply scan_at_sound.
  - destruct (length rest <? length s)%nat; [apply IH | done].
Qed.

Lemma findall_sound s :
  Forall (fun m => m.1 ∈ HEADERS ∧ nl_hash_free m.2 = true) (findall pattern s).
Proof. apply findall_from_sound. Qed.

(** ** The assignment loop *)

Lemma foldl_assign_other (ms : list (str * str)) (m : gmap str str) h :
  h ∉ ms.*1 → foldl assign m ms !! h = m !! h.
Proof.
  revert m. induction ms as [|[h' c] ms IH]; intros m; [done|].
  intros [Hne Hms]%not_elem_of_cons. simpl in *.
  rewrite IH by done. unfold assign. by rewrite lookup_insert_ne.
Qed.

Lemma foldl_assign_last (ms1 ms2 : list (str * str)) (m : gmap str str) h c :
  h ∉ ms2.*1 → foldl assign m (ms1 ++ (h, c) :: ms2) !! h = Some (strip c).
Proof.
  intros H. rewrite foldl_app. simpl.
  rewrite foldl_assign_other by done. unfold assign. apply lookup_insert_eq.
Qed.

Lemma foldl_assign_dom (ms : list (str * str)) (m : gmap str str) :
  Forall (fun x => x.1 ∈ dom m) ms → dom (foldl assign m ms) = dom m.
Proof.
  revert m. induction ms as [|[h c] ms IH]; intros m; [done|].
  intros [Hh Hms]%Forall_cons. simpl in *.
  assert (dom (assign m (h, c)) = dom m) as Hd.
  { unfold assign. rewrite dom_insert_L.
    apply subseteq_union_1_L. by apply singleton_subseteq_l. }
  rewrite IH; [done|]. by rewrite Hd.
Qed.

Lemma foldl_assign_Forall (P : str → Prop) (ms : list (str * str)) (m : gmap str str) :
  map_Forall (fun _ b => P b) m →
  Forall (fun x => P (strip x.2)) ms →
  map_Forall (fun _ b => P b) (foldl assign m ms).
Proof.
  revert m. induction ms as [|[h c] ms IH]; intros m Hm; [done|].
  intros [Hc Hms]%Forall_cons. simpl. apply IH; [|done].
  unfold assign. by apply map_Forall_insert_2.
Qed.

Lemma dom_sections0 : dom sections0 = list_to_set HEADERS.
Proof. unfold sections0. rewrite !dom_insert_L, dom_empty_L. set_solver. Qed.

Lemma NoDup_HEADERS : NoDup HEADERS.
Proof. apply (bool_decide_unpack (NoDup HEADERS)). vm_compute. exact I. Qed.

Lemma sections0_lookup h : h ∈ HEADERS → sections0 !! h = Some [].
Proof.
  unfold HEADERS. rewrite !elem_of_cons, elem_of_nil.
  intros [->|[->|[->|[->|[->|[->|[]]]]]]]; by vm_compute.
Qed.

Lemma parse_dom output : dom (parse_final_output output) = list_to_set HEADERS.
Proof.
  unfold parse_final_output. rewrite foldl_assign_dom; [apply dom_sections0|].
  eapply Forall_impl; [apply findall_sound|].
  intros [h c] [Hh _]. rewrite dom_sections0. by apply elem_of_list_to_set.
Qed.

(** C1. For every input, [parse_final_output] returns (the model is a total
    function: no path raises) a mapping whose keys are exactly the six fixed
    headers; on the empty string every one of the six keys is mapped to the
    empty string. *)
Theorem parse_six_keys (output : str) :
  dom (parse_final_output output) = list_to_set HEADERS
  ∧ size (dom (parse_final_output output)) = 6%nat
  ∧ Forall (fun h => parse_final_output [] !! h = Some []) HEADERS.
Proof.
  rewrite parse_dom. split; [done|]. split; [by vm_compute|].
  rewrite Forall_forall. intros h Hh. by apply sections0_lookup.
Qed.

(** C10, as the code has it.  No body of the returned mapping contains a
    newline immediately followed by '#': no line of a body other than its
    first one begins with '#'. *)
Theorem parse_body_has_no_later_hash_line (output h b : str) :
  parse_final_output output !! h = Some b → nl_hash_free b = true.
Proof.
  intros Hb.
  assert (map_Forall (fun _ b => nl_hash_free b = true)
            (parse_final_output output)) as Hall; [|by eapply Hall].
  apply foldl_assign_Forall.
  - intros k v Hk. assert (k ∈ dom sections0) as Hd by (by apply elem_of_dom).
    rewrite dom_sections0 in Hd. apply elem_of_list_to_set in Hd.
    rewrite (sections0_lookup _ Hd) in Hk. by injection Hk as <-.
  - eapply Forall_impl; [apply findall_sound|].
    intros [h' c] [_ Hc]. by apply nl_hash_free_strip.
Qed.

Lemma parse_body_has_no_later_hash_line_witness :
  parse_final_output summary_with_note !! SUMMARY = Some (lit "a")
  ∧ nl_hash_free (lit "a") = true.
Proof.
  assert (parse_final_output summary_with_note !! SUMMARY = Some (lit "a")) as H
    by (by vm_compute).
  split; [exact H|].
  exact (parse_body_has_no_later_hash_line summary_with_note SUMMARY (lit "a") H).
Defined.

(** C10 as stated fails: the body that follows a header on the header's
    own line may begin with '#', and so may a body whose header line is
    followed at once by a line beginning with '#'. *)
Lemma parse_body_may_begin_with_hash :
  parse_final_output (lit "# SUMMARY #1 first") !! SUMMARY = Some (lit "#1 first")
  ∧ hash_line_free (lit "#1 first") = false
  ∧ parse_final_output (lit "# SUMMARY" ++ [NL] ++ lit "#foo") !! SUMMARY
    = Some (lit "#foo")
  ∧ hash_line_free (lit "#foo") = false.
Proof. repeat split; by vm_compute. Qed.

(** ** Reports written section by section *)

Lemma header_cases (P : str → Prop) :
  P SUMMARY → P KEY_DISCUSSION_POINTS → P ACTION_ITEMS →
  P SUGGESTED_QUESTIONS → P RISKS_AND_MISSING_INFO → P MEETING_SCRIPT →
  ∀ h, h ∈ HEADERS → P h.
Proof.
  intros ?????? h. unfold HEADERS. rewrite !elem_of_cons, elem_of_nil.
  by intros [->|[->|[->|[->|[->|[->|[]]]]]]].
Qed.

Lemma header_lstrip h x : h ∈ HEADERS → lstrip (h ++ x) = h ++ x.
Proof. revert h. apply header_cases; reflexivity. Qed.

Lemma header_first h x : h ∈ HEADERS → first_header HEADERS (h ++ x) = Some (h, x).
Proof. revert h. apply header_cases; reflexivity. Qed.

Lemma scan_at_header ws h x :
  forallb isspace ws = true → h ∈ HEADERS →
  scan_at (HASH :: ws ++ h ++ x) =
  Some (h, (body_split (lstrip x)).1, (body_split (lstrip x)).2).
Proof.
  intros Hws Hh. unfold scan_at. rewrite N.eqb_refl.
  rewrite lstrip_app_space, header_lstrip, header_first by done.
  by destruct (body_split (lstrip x)).
Qed.

Lemma body_split_app v R :
  nl_hash_free v = true → at_body_end (NL :: R) = true →
  body_split (v ++ NL :: R) = (v, NL :: R).
Proof.
  intros Hv HR. induction v as [|c v IH].
  - simpl app. cbn [body_split]. by rewrite HR.
  - simpl in Hv. apply andb_prop in Hv as [Hc Hv].
    simpl app. cbn [body_split].
    assert (at_body_end (c :: v ++ NL :: R) = false) as ->.
    { destruct v as [|y v]; simpl in *.
      - by rewrite andb_false_r.
      - by apply negb_true_iff in Hc. }
    by rewrite (IH Hv).
Qed.

Lemma report_cons hb l : report (hb :: l) = section_text hb ++ report l.
Proof. reflexivity. Qed.

Lemma at_body_end_report l : at_body_end (NL :: report l) = true.
Proof. by destruct l as [|[h b] l]. Qed.

(** The matches of a report are its sections, in order, each with its body
    less the leading white space. *)
Lemma findall_report (l : list (str * str)) :
  Forall (fun hb => hb.1 ∈ HEADERS ∧ plain_body hb.2) l →
  findall pattern (report l) = map (fun hb => (hb.1, lstrip hb.2)) l.
Proof.
  induction l as [|[h b] l IH]; [done|].
  intros [[Hh [Hb Hfree]] Hl]%Forall_cons. simpl in Hh, Hb, Hfree.
  rewrite report_cons. unfold section_text. simpl fst. simpl snd.
  change (lit "# ") with ([HASH] ++ [32]).
  rewrite <- !app_assoc. simpl app.
  rewrite (findall_hit _ h (lstrip b) (NL :: report l)).
  - simpl map. f_equal.
    rewrite findall_miss by (by apply scan_at_not_hash). auto.
  - change (HASH :: 32 :: h ++ NL :: b ++ NL :: report l)
      with (HASH :: [32] ++ h ++ NL :: b ++ NL :: report l).
    rewrite scan_at_header by done.
    change (lstrip (NL :: b ++ NL :: report l))
      with (lstrip (b ++ NL :: report l)).
    rewrite lstrip_app by (by apply strip_nonempty_lstrip).
    rewrite body_split_app; [done | by apply nl_hash_free_lstrip |].
    apply at_body_end_report.
Qed.

(** Each header of a report with distinct headers gets its trimmed body. *)
Lemma parse_report_lookup (l : list (str * str)) h b :
  NoDup l.*1 →
  Forall (fun hb => hb.1 ∈ HEADERS ∧ plain_body hb.2) l →
  (h, b) ∈ l →
  parse_final_output (report l) !! h = Some (strip b).
Proof.
  intros Hnd Hl Hin. unfold parse_final_output. rewrite findall_report by done.
  apply list_elem_of_split in Hin as (l1 & l2 & ->).
  rewrite map_app. simpl map.
  rewrite foldl_assign_last; [by rewrite strip_lstrip|].
  rewrite fmap_app in Hnd. apply NoDup_app in Hnd as (_ & _ & Hnd).
  simpl in Hnd. apply NoDup_cons in Hnd as [Hnd _].
  by rewrite <- list_fmap_compose.
Qed.

(** C3, as the code has it.  Last occurrence wins: in a raw output written
    as sections "# HEADER\nBODY\n" with canonical headers, where a header
    may occur any number of times and every body has a character that is
    not white space and contains no newline immediately followed by '#', a
    header is mapped to the trimmed body of the last section that carries
    it. *)
Theorem report_last_section_wins (l1 l2 : list (str * str)) (h b : str) :
  Forall (fun hb => hb.1 ∈ HEADERS ∧ plain_body hb.2) (l1 ++ (h, b) :: l2) →
  h ∉ l2.*1 →
  parse_final_output (report (l1 ++ (h, b) :: l2)) !! h = Some (strip b).
Proof.
  intros Hl Hlast. unfold parse_final_output. rewrite findall_report by done.
  rewrite map_app. simpl map.
  rewrite foldl_assign_last; [by rewrite strip_lstrip|].
  by rewrite <- list_fmap_compose.
Qed.

Lemma report_last_section_wins_witness :
  report (sections_before ++ (SUMMARY, lit " second ") :: sections_after)
  = lit "# SUMMARY" ++ [NL] ++ lit " first " ++ [NL]
    ++ lit "# ACTION ITEMS" ++ [NL] ++ lit "a" ++ [NL]
    ++ lit "# SUMMARY" ++ [NL] ++ lit " second " ++ [NL]
    ++ lit "# MEETING SCRIPT" ++ [NL] ++ lit "m" ++ [NL]
  ∧ parse_final_output
      (report (sections_before ++ (SUMMARY, lit " second ") :: sections_after))
    !! SUMMARY = Some (lit "second").
Proof.
  split; [by vm_compute|].
  apply (report_last_section_wins sections_before sections_after SUMMARY
           (lit " second ")).
  - repeat constructor; try (by vm_compute);
      apply (bool_decide_unpack _); by vm_compute.
  - apply (bool_decide_unpack _). by vm_compute.
Defined.

(** C3 as stated fails: SUMMARY occurs twice in each of these outputs, and
    it is not mapped to the trimmed body of its last occurrence.  The body
    of the last occurrence is cut before its line "#note"; a second
    "# SUMMARY" in the middle of a line of the first body opens no section;
    and after an empty first body the second header line is taken as the
    body. *)
Lemma report_last_section_fails :
  parse_final_output (report sections_repeated_note) !! SUMMARY
  = Some (lit "second")
  ∧ strip (lit "second" ++ [NL] ++ lit "#note" ++ [NL] ++ lit "more")
    ≠ lit "second"
  ∧ findall pattern repeated_midline = [(SUMMARY, lit "a # SUMMARY b")]
  ∧ parse_final_output repeated_midline !! SUMMARY = Some (lit "a # SUMMARY b")
  ∧ report sections_repeated_empty
    = lit "# SUMMARY" ++ [NL; NL] ++ lit "# SUMMARY" ++ [NL] ++ lit "second" ++ [NL]
  ∧ parse_final_output (report sections_repeated_empty) !! SUMMARY
    = Some (lit "# SUMMARY" ++ [NL] ++ lit "second")
  ∧ strip (lit "second") ≠ lit "# SUMMARY" ++ [NL] ++ lit "second".
Proof. split_and!; by vm_compute. Qed.

(** C2, as the code has it.  Round trip: when each of the six bodies is
    not empty, has no leading or trailing white space and contains no
    newline immediately followed by '#', parsing the text that writes
    "# HEADER\nBODY\n" for the six headers in canonical order gives back
    exactly the six bodies. *)
Theorem report_roundtrip (bodies : list str) :
  length bodies = 6%nat →
  Forall (fun b => b ≠ [] ∧ strip b = b ∧ nl_hash_free b = true) bodies →
  parse_final_output (report (zip HEADERS bodies))
  = list_to_map (zip HEADERS bodies).
Proof.
  intros Hlen Hall. set (l := zip HEADERS bodies).
  assert (l.*1 = HEADERS) as Hfst by (apply fst_zip; simpl; lia).
  assert (NoDup l.*1) as Hnd by (rewrite Hfst; apply NoDup_HEADERS).
  assert (Forall (fun hb => hb.1 ∈ HEADERS ∧ plain_body hb.2 ∧ strip hb.2 = hb.2) l)
    as Hgood.
  { apply Forall_forall. intros [h b] Hin. cbn [fst snd].
    split; [by eapply elem_of_zip_l|].
    apply elem_of_zip_r in Hin. rewrite Forall_forall in Hall.
    destruct (Hall _ Hin) as (Hne & Hstrip & Hfree).
    split; [|done]. split; [by rewrite Hstrip | done]. }
  clearbody l. apply map_eq. intros k.
  destruct (decide (k ∈ HEADERS)) as [Hk|Hk].
  - rewrite <- Hfst in Hk. apply list_elem_of_fmap in Hk as ([h b] & -> & Hin).
    cbn [fst]. rewrite (elem_of_list_to_map_1 _ h b) by done.
    rewrite (parse_report_lookup _ h b); [|done| |done].
    + rewrite Forall_forall in Hgood.
      destruct (Hgood _ Hin) as (_ & _ & Hs). cbn [snd] in Hs. by rewrite Hs.
    + eapply Forall_impl; [exact Hgood|]. by intros [??] (? & ? & _).
  - rewrite not_elem_of_list_to_map_1 by (by rewrite Hfst).
    apply not_elem_of_dom. rewrite parse_dom. by rewrite elem_of_list_to_set.
Qed.

Lemma report_roundtrip_witness :
  parse_final_output (report (zip HEADERS bodies_plain))
  = list_to_map (zip HEADERS bodies_plain).
Proof.
  apply (report_roundtrip bodies_plain); [reflexivity|].
  repeat constructor; by vm_compute.
Defined.

(** C2 as stated fails: none of these bodies has a line that begins with
    '#' followed by a header name, and yet a body with leading white space
    comes back trimmed, a body with a line "#b" comes back cut before that
    line, and after an empty body the next header is taken as the body. *)
Lemma report_roundtrip_fails :
  forallb header_line_free bodies_padded = true
  ∧ parse_final_output (report (zip HEADERS bodies_padded))
    ≠ list_to_map (zip HEADERS bodies_padded)
  ∧ parse_final_output (report (zip HEADERS bodies_padded)) !! SUMMARY
    = Some (lit "x")
  ∧ forallb header_line_free bodies_with_note = true
  ∧ parse_final_output (report (zip HEADERS bodies_with_note))
    ≠ list_to_map (zip HEADERS bodies_with_note)
  ∧ parse_final_output (report (zip HEADERS bodies_with_note)) !! SUMMARY
    = Some (lit "a")
  ∧ forallb header_line_free bodies_first_empty = true
  ∧ parse_final_output (report (zip HEADERS bodies_first_empty))
    ≠ list_to_map (zip HEADERS bodies_first_empty)
  ∧ parse_final_output (report (zip HEADERS bodies_first_empty)) !! SUMMARY
    = Some (lit "# KEY DISCUSSION POINTS" ++ [NL] ++ lit "k")
  ∧ parse_final_output (report (zip HEADERS bodies_first_empty)) !! KEY_DISCUSSION_POINTS
    = Some [].
Proof.
  split_and!;
    lazymatch goal with
    | |- _ ≠ _ =>
        intros Heq;
        apply (f_equal (fun m : gmap str str => m !! SUMMARY)) in Heq;
        vm_compute in Heq; discriminate Heq
    | |- _ => vm_compute; reflexivity
    end.
Qed.

(** C4, as the code has it.  Order does not matter: when the six canonical
    headers are written each exactly once, in any order, as
    "# HEADER\nBODY\n", and every body has a character that is not white
    space and contains no newline immediately followed by '#', every header
    is mapped to its own trimmed body. *)
Theorem parse_any_order (l : list (str * str)) (h b : str) :
  l.*1 ≡ₚ HEADERS →
  Forall plain_body l.*2 →
  (h, b) ∈ l →
  parse_final_output (report l) !! h = Some (strip b).
Proof.
  intros Hperm Hbodies Hin. apply parse_report_lookup; [| |done].
  - rewrite Hperm. apply NoDup_HEADERS.
  - apply Forall_forall. intros [h' b'] Hin'. simpl. split.
    + rewrite <- Hperm. by apply (list_elem_of_fmap_2 fst _ (h', b')).
    + rewrite Forall_forall in Hbodies. apply Hbodies.
      by apply (list_elem_of_fmap_2 snd _ (h', b')).
Qed.

Lemma parse_any_order_witness :
  parse_final_output (report sections_shuffled) !! ACTION_ITEMS = Some (lit "a")
  ∧ parse_final_output (report sections_shuffled) !! SUMMARY = Some (lit "s").
Proof.
  assert (sections_shuffled.*1 ≡ₚ HEADERS) as Hperm.
  { apply (bool_decide_unpack (sections_shuffled.*1 ≡ₚ HEADERS)). by vm_compute. }
  assert (Forall plain_body sections_shuffled.*2) as Hbodies.
  { repeat constructor; by vm_compute. }
  split.
  - apply (parse_any_order sections_shuffled ACTION_ITEMS (lit " a ") Hperm Hbodies).
    apply (bool_decide_unpack _). by vm_compute.
  - apply (parse_any_order sections_shuffled SUMMARY (lit "s") Hperm Hbodies).
    apply (bool_decide_unpack _). by vm_compute.
Defined.

(** C4 as stated fails: with the six headers each exactly once and ACTION
    ITEMS first, a body with a line "#1 note" is cut before that line, and
    an empty body makes the parser take the next header and its body as the
    body and leave that header empty. *)
Lemma parse_any_order_fails :
  sections_shuffled_note.*1 ≡ₚ HEADERS
  ∧ parse_final_output (report sections_shuffled_note) !! ACTION_ITEMS
    = Some (lit "a")
  ∧ strip (lit "a" ++ [NL] ++ lit "#1 note") ≠ lit "a"
  ∧ sections_shuffled_empty.*1 ≡ₚ HEADERS
  ∧ parse_final_output (report sections_shuffled_empty) !! ACTION_ITEMS
    = Some (lit "# SUMMARY" ++ [NL] ++ lit "s")
  ∧ parse_final_output (report sections_shuffled_empty) !! SUMMARY = Some [].
Proof.
  repeat split; try (by vm_compute);
    apply (bool_decide_unpack _); by vm_compute.
Qed.

(** ** Where a header is recognised *)

Lemma body_split_whole v :
  nl_hash_free v = true →
  body_split v = (v, []) ∨ ∃ b, v = b ++ [NL] ∧ body_split v = (b, [NL]).
Proof.
  induction v as [|c t IH]; [by left|].
  intros Hv. simpl in Hv. apply andb_prop in Hv as [Hc Hv].
  cbn [body_split]. destruct t as [|y t].
  - simpl. destruct (N.eqb_spec c NL) as [->|_].
    + right. by exists [].
    + by left.
  - assert (at_body_end (c :: y :: t) = false) as ->
      by (by apply negb_true_iff in Hc).
    destruct (IH Hv) as [->|(b & Hb & ->)].
    + by left.
    + right. exists (c :: b). by rewrite Hb.
Qed.

Lemma lstrip_app_fixed b x : lstrip (b ++ x) = b ++ x → b ≠ [] → lstrip b = b.
Proof.
  destruct b as [|c b]; [done|]. intros H _.
  simpl in *. destruct (isspace c) eqn:Hc; [|done].
  pose proof (lstrip_length (b ++ x)) as Hlen. rewrite H in Hlen.
  simpl in Hlen. lia.
Qed.

(** The content of a match that runs to the end of the input, trimmed. *)
Lemma strip_body_split_whole rest :
  nl_hash_free rest = true →
  strip (body_split (lstrip rest)).1 = strip rest
  ∧ findall pattern (body_split (lstrip rest)).2 = [].
Proof.
  intros Hfree%nl_hash_free_lstrip.
  destruct (body_split_whole _ Hfree) as [->|(b & Hb & ->)]; simpl.
  - split; [apply strip_lstrip | done].
  - split; [|done]. unfold strip at 2. rewrite Hb.
    rewrite rstrip_app_space by done. unfold strip. f_equal.
    destruct b as [|c b]; [done|].
    apply (lstrip_app_fixed _ [NL]); [|done].
    rewrite <- Hb. apply lstrip_idem.
Qed.

(** C5, as the code has it.  The first '#' of the input that is followed
    by optional white space and a canonical header name opens that header's
    section wherever it stands on its line; and when no newline immediately
    followed by '#' comes after it, the rest of the input, trimmed, is the
    body of that one section, so that a '#' and a header name in the middle
    of a line of the body open no section. *)
Theorem header_opens_section_anywhere (pre ws h rest : str) :
  HASH ∉ pre →
  forallb isspace ws = true →
  h ∈ HEADERS →
  (∃ c ms, findall pattern (pre ++ [HASH] ++ ws ++ h ++ rest) = (h, c) :: ms)
  ∧ (nl_hash_free rest = true →
     parse_final_output (pre ++ [HASH] ++ ws ++ h ++ rest)
     = <[h := strip rest]> sections0).
Proof.
  intros Hpre Hws Hh. unfold parse_final_output.
  rewrite findall_skip by done. simpl app.
  rewrite (findall_hit _ _ _ _ (scan_at_header ws h rest Hws Hh)).
  split; [by eauto|]. intros Hrest.
  destruct (strip_body_split_whole rest Hrest) as [Hbody ->].
  simpl. unfold assign. simpl. by rewrite Hbody.
Qed.

Lemma header_opens_section_anywhere_witness :
  (∃ c ms,
     findall pattern
       (lit "ab " ++ [HASH] ++ lit " " ++ SUMMARY ++ lit " cd # ACTION ITEMS x")
     = (SUMMARY, c) :: ms)
  ∧ parse_final_output
      (lit "ab " ++ [HASH] ++ lit " " ++ SUMMARY ++ lit " cd # ACTION ITEMS x")
    = <[SUMMARY := lit "cd # ACTION ITEMS x"]> sections0.
Proof.
  assert (HASH ∉ lit "ab ") as Hpre
    by (apply (bool_decide_unpack _); by vm_compute).
  assert (forallb isspace (lit " ") = true) as Hws by (by vm_compute).
  assert (SUMMARY ∈ HEADERS) as Hh
    by (apply (bool_decide_unpack _); by vm_compute).
  destruct (header_opens_section_anywhere (lit "ab ") (lit " ") SUMMARY
              (lit " cd # ACTION ITEMS x") Hpre Hws Hh) as [Hopen Hbody].
  split; [exact Hopen|]. apply Hbody. by vm_compute.
Defined.

(** C5 as stated fails: no '#' of this input is at the start of a line, and
    the '#' in the middle of its line opens the SUMMARY section. *)
Lemma midline_header_opens_section :
  has_line_leading_hash midline_header = false
  ∧ findall pattern midline_header = [(SUMMARY, lit "cd")]
  ∧ parse_final_output midline_header !! SUMMARY = Some (lit "cd").
Proof. repeat split; by vm_compute. Qed.

(** ** The orchestrator *)

Lemma run_with_key {Exn} (crew_kickoff : Crew → Exn + CrewOutput)
    (environ : gmap str str) (full_text : str) (log : list Crew) :
  attr_truthy (environ !! GEMINI_API_KEY) = true →
  run_meeting_prep_crew crew_kickoff environ full_text log =
  let crew := build_crew (take (Z.to_nat 100000) full_text) in
  (match crew_kickoff crew with
   | inl e => Raised e
   | inr result => Returned (result_string result)
   end, log ++ [crew]).
Proof.
  intros Hkey. unfold run_meeting_prep_crew. rewrite Hkey. cbn [negb].
  unfold bind, kickoff, ret. cbv zeta.
  by destruct (crew_kickoff _).
Qed.

(** C6. When the run reaches the crew, the first task handed to the
    generation capability is "Summarize:\n" followed by a text that is at
    most 100,000 characters long: the first 100,000 characters of the input
    when the input is longer, the input itself otherwise. *)
Theorem first_step_text_is_capped {Exn} (crew_kickoff : Crew → Exn + CrewOutput)
    (environ : gmap str str) (full_text : str) :
  attr_truthy (environ !! GEMINI_API_KEY) = true →
  ∃ text,
    description <$>
      (generation_tasks (run_meeting_prep_crew crew_kickoff environ full_text []).2
         !! 0%nat)
    = Some (lit "Summarize:" ++ [NL] ++ text)
    ∧ (Z.of_nat (length text) ≤ 100000)%Z
    ∧ ((100000 < Z.of_nat (length full_text))%Z →
       Z.of_nat (length text) = 100000%Z ∧ ∃ excess, full_text = text ++ excess)
    ∧ ((Z.of_nat (length full_text) ≤ 100000)%Z → text = full_text).
Proof.
  intros Hkey. exists (take (Z.to_nat 100000) full_text).
  rewrite run_with_key by done. cbv zeta. cbn [snd app].
  split; [reflexivity|]. rewrite length_take.
  split; [lia|]. split.
  - intros Hlong. split; [lia|].
    exists (drop (Z.to_nat 100000) full_text). by rewrite take_drop.
  - intros Hshort. apply take_ge. lia.
Qed.

Lemma first_step_text_is_capped_witness :
  ∃ text,
    description <$>
      (generation_tasks
         (run_meeting_prep_crew reporting_kickoff environ_with_key (lit "notes") []).2
         !! 0%nat)
    = Some (lit "Summarize:" ++ [NL] ++ text)
    ∧ (Z.of_nat (length text) ≤ 100000)%Z
    ∧ ((100000 < Z.of_nat (length (lit "notes")))%Z →
       Z.of_nat (length text) = 100000%Z ∧ ∃ excess, lit "notes" = text ++ excess)
    ∧ ((Z.of_nat (length (lit "notes")) ≤ 100000)%Z → text = lit "notes").
Proof.
  apply (first_step_text_is_capped reporting_kickoff environ_with_key (lit "notes")).
  by vm_compute.
Defined.

(** C7. Without GEMINI_API_KEY in the environment the run ends at once
    with the configuration error (the message "ERROR: GEMINI_API_KEY missing
    in environment.") and kicks off no crew: no task reaches the generation
    capability. *)
Theorem missing_key_stops_before_generation {Exn}
    (crew_kickoff : Crew → Exn + CrewOutput)
    (environ : gmap str str) (full_text : str) (log : list Crew) :
  environ !! GEMINI_API_KEY = None →
  run_meeting_prep_crew crew_kickoff environ full_text log
  = (Returned ERROR_MESSAGE, log)
  ∧ generation_tasks (run_meeting_prep_crew crew_kickoff environ full_text []).2 = [].
Proof.
  intros Hkey. unfold run_meeting_prep_crew. by rewrite Hkey.
Qed.

Lemma missing_key_stops_before_generation_witness :
  (∅ : gmap str str) !! GEMINI_API_KEY = None
  ∧ run_meeting_prep_crew reporting_kickoff ∅ (lit "notes") []
    = (Returned ERROR_MESSAGE, []).
Proof.
  split; [by vm_compute|].
  apply (missing_key_stops_before_generation reporting_kickoff ∅ (lit "notes") []).
  by vm_compute.
Defined.

(** C9, as the code has it.  When the kickoff of the crew fails, the run
    ends there and the exception of the crew library goes up to the caller
    as it is. *)
Theorem kickoff_failure_goes_up_unchanged {Exn}
    (crew_kickoff : Crew → Exn + CrewOutput)
    (environ : gmap str str) (full_text : str) (log : list Crew) (e : Exn) :
  attr_truthy (environ !! GEMINI_API_KEY) = true →
  crew_kickoff (build_crew (take (Z.to_nat 100000) full_text)) = inl e →
  run_meeting_prep_crew crew_kickoff environ full_text log
  = (Raised e, log ++ [build_crew (take (Z.to_nat 100000) full_text)]).
Proof.
  intros Hkey Hfail. rewrite run_with_key by done. cbv zeta. by rewrite Hfail.
Qed.

Lemma kickoff_failure_goes_up_unchanged_witness :
  run_meeting_prep_crew failing_kickoff environ_with_key (lit "notes") []
  = (Raised (LibraryFailure (lit "quota exceeded")),
     [] ++ [build_crew (take (Z.to_nat 100000) (lit "notes"))]).
Proof.
  apply (kickoff_failure_goes_up_unchanged failing_kickoff environ_with_key
           (lit "notes") [] (LibraryFailure (lit "quota exceeded"))).
  - by vm_compute.
  - reflexivity.
Defined.

(** C9 as stated fails: the failure of the crew library comes out of the
    run as the library raised it, and it is no [GenerationError]. *)
Lemma kickoff_failure_is_not_wrapped :
  (run_meeting_prep_crew failing_kickoff environ_with_key (lit "notes") []).1
  = Raised (LibraryFailure (lit "quota exceeded"))
  ∧ is_GenerationError (LibraryFailure (lit "quota exceeded")) = false.
Proof. split; by vm_compute. Qed.

(** ** The document corpus *)

(** C8. Two plain-text files with decoded contents [a] and then [b] give
    the combined text [a ++ "\n" ++ b ++ "\n"]: the contents in upload
    order, one newline appended after each; for "A" and "B" this is
    "A\nB\n". *)
Theorem corpus_of_two_text_files
    (page_texts : list Byte.byte → list (option str))
    (decode_utf8 : list Byte.byte → option str)
    (f1 f2 : UploadedFile) (a b : str) :
  type f1 ≠ lit "application/pdf" →
  type f2 ≠ lit "application/pdf" →
  decode_utf8 (getvalue f1) = Some a →
  decode_utf8 (getvalue f2) = Some b →
  build_full_text page_texts decode_utf8 [f1; f2] = Some (a ++ [NL] ++ b ++ [NL]).
Proof.
  intros H1 H2 Ha Hb. unfold build_full_text, add_files, add_file.
  rewrite !bool_decide_eq_false_2 by done.
  rewrite Ha. simpl. rewrite Hb. simpl. by rewrite <- app_assoc.
Qed.

Lemma corpus_of_two_text_files_witness :
  build_full_text (fun _ => []) decode_ascii [file_A; file_B]
  = Some (lit "A" ++ [NL] ++ lit "B" ++ [NL]).
Proof.
  apply (corpus_of_two_text_files (fun _ => []) decode_ascii file_A file_B
           (lit "A") (lit "B")); by vm_compute.
Defined.

(** * Further properties of the parser *)

Lemma lstrip_split (s : str) :
  ∃ w, s = w ++ lstrip s ∧ forallb isspace w = true.
Proof.
  induction s as [|c s (w & IH & Hw)]; simpl.
  - by exists [].
  - destruct (isspace c) eqn:Hc.
    + exists (c :: w). simpl. rewrite Hc, Hw. by rewrite <- IH.
    + by exists [].
Qed.

Lemma rstrip_idem (s : str) : rstrip (rstrip s) = rstrip s.
Proof. unfold rstrip. by rewrite rev_involutive, lstrip_idem. Qed.

Lemma lstrip_rstrip_fixed (y : str) : lstrip y = y → lstrip (rstrip y) = rstrip y.
Proof.
  intros Hy. destruct (rstrip_prefix y) as [w Hw].
  destruct (rstrip y) as [|c r] eqn:Hr; [done|].
  rewrite Hw in Hy. by apply (lstrip_app_fixed (c :: r) w).
Qed.

Lemma strip_idem (s : str) : strip (strip s) = strip s.
Proof.
  unfold strip. rewrite lstrip_rstrip_fixed by apply lstrip_idem.
  apply rstrip_idem.
Qed.

Lemma occurs_in_refl (s : str) : occurs_in s s.
Proof. exists [], []. by rewrite app_nil_r. Qed.

Lemma occurs_in_nil (s : str) : occurs_in [] s.
Proof. by exists [], s. Qed.

Lemma occurs_in_trans (a b c : str) : occurs_in a b → occurs_in b c → occurs_in a c.
Proof.
  intros (u & v & ->) (u' & v' & ->). exists (u' ++ u), (v ++ v').
  by rewrite <- !app_assoc.
Qed.

Lemma occurs_in_app_l (a u s : str) : occurs_in a s → occurs_in a (u ++ s).
Proof. intros (x & y & ->). exists (u ++ x), y. by rewrite <- app_assoc. Qed.

Lemma strip_occurs (s : str) : occurs_in (strip s) s.
Proof.
  unfold strip. destruct (lstrip_suffix s) as [w Hw].
  destruct (rstrip_prefix (lstrip s)) as [w' Hw'].
  exists w, w'. by rewrite <- Hw', <- Hw.
Qed.

(** A match is a '#', white space, the header, white space and the content,
    in this order in the input; what is left after it is a shorter input. *)
Lemma scan_at_shape s h b rest :
  scan_at s = Some (h, b, rest) →
  ∃ w1 w2, s = [HASH] ++ w1 ++ h ++ w2 ++ b ++ rest
           ∧ forallb isspace w1 = true ∧ forallb isspace w2 = true.
Proof.
  destruct s as [|c t]; [done|]. unfold scan_at.
  destruct (N.eqb_spec c HASH) as [->|]; [|done].
  destruct (first_header HEADERS (lstrip t)) as [[h' u]|] eqn:E; [|done].
  apply first_header_Some in E as [_ E].
  pose proof (body_split_app_eq (lstrip u)) as Hsplit.
  destruct (body_split (lstrip u)) as [b' rest']. intros [= <- <- <-].
  destruct (lstrip_split t) as (w1 & Ht & Hw1).
  destruct (lstrip_split u) as (w2 & Hu & Hw2).
  exists w1, w2. split; [|done]. simpl in *.
  rewrite Hsplit, <- Hu, <- E. by rewrite <- Ht.
Qed.

Lemma match_in_app (u s : str) m : match_in s m → match_in (u ++ s) m.
Proof.
  intros [(x & w & v & -> & Hw) Hocc]. split; [|by apply occurs_in_app_l].
  exists (u ++ x), w, v. by rewrite <- app_assoc.
Qed.

Lemma findall_from_in n s : Forall (match_in s) (findall_from n pattern s).
Proof.
  revert s. induction n as [|n IH]; intros s; [by constructor|].
  rewrite findall_from_S, match_at_pattern.
  assert (Forall (match_in s)
            match s with [] => [] | _ :: t => findall_from n pattern t end) as Hnext.
  { destruct s as [|c t]; [by constructor|].
    eapply Forall_impl; [apply IH|]. intros m. apply (match_in_app [c]). }
  destruct (scan_at s) as [[[h b] rest]|] eqn:E; [|done].
  rewrite group_1, group_2.
  destruct (scan_at_shape _ _ _ _ E) as (w1 & w2 & Hs & Hw1 & Hw2).
  constructor.
  - split; simpl.
    + exists [], w1, (w2 ++ b ++ rest). by rewrite Hs.
    + exists ([HASH] ++ w1 ++ h ++ w2), rest. rewrite Hs. by rewrite <- !app_assoc.
  - destruct (length rest <? length s)%nat; [|done].
    eapply Forall_impl; [apply IH|]. intros m Hm. rewrite Hs.
    replace ([HASH] ++ w1 ++ h ++ w2 ++ b ++ rest)
      with (([HASH] ++ w1 ++ h ++ w2 ++ b) ++ rest)
      by (by rewrite <- !app_assoc).
    by apply match_in_app.
Qed.

Lemma parse_values (P : str → Prop) (output : str) :
  P [] →
  (∀ c, nl_hash_free c = true → occurs_in c output → P (strip c)) →
  map_Forall (fun _ b => P b) (parse_final_output output).
Proof.
  intros Hnil Hstrip. apply foldl_assign_Forall.
  - intros k v Hk. assert (k ∈ dom sections0) as Hd by (by apply elem_of_dom).
    rewrite dom_sections0 in Hd. apply elem_of_list_to_set in Hd.
    rewrite (sections0_lookup _ Hd) in Hk. by injection Hk as <-.
  - pose proof (findall_sound output) as Hsound.
    pose proof (findall_from_in (S (length output)) output) as Hin.
    fold (findall pattern output) in Hin.
    rewrite Forall_forall in Hsound, Hin. apply Forall_forall.
    intros m Hm. apply Hstrip; [by apply Hsound | by apply Hin].
Qed.

(** X1. Text in front of the first '#' is ignored, and an output without
    any '#' gives six empty sections. *)
Theorem parse_ignores_preamble (pre output : str) :
  HASH ∉ pre →
  parse_final_output (pre ++ output) = parse_final_output output
  ∧ parse_final_output pre = sections0.
Proof.
  intros Hpre. unfold parse_final_output. split.
  - by rewrite findall_skip.
  - rewrite <- (app_nil_r pre). by rewrite findall_skip.
Qed.

Lemma parse_ignores_preamble_witness :
  parse_final_output (lit "Here is the report:" ++ twice_summary)
  = parse_final_output twice_summary
  ∧ parse_final_output (lit "Here is the report:") = sections0.
Proof.
  apply (parse_ignores_preamble (lit "Here is the report:") twice_summary).
  apply (bool_decide_unpack _). by vm_compute.
Defined.

Lemma strip_fixed_ends (b : str) :
  strip b = b →
  (∀ c t, b = c :: t → isspace c = false)
  ∧ (∀ c t, b = t ++ [c] → isspace c = false).
Proof.
  intros Hb. split; intros c t Heq.
  - assert (lstrip b = b) as Hl.
    { rewrite <- Hb. unfold strip. apply lstrip_rstrip_fixed, lstrip_idem. }
    rewrite Heq in Hl. by eapply lstrip_head.
  - assert (rstrip b = b) as Hr.
    { rewrite <- Hb. unfold strip. apply rstrip_idem. }
    unfold rstrip in Hr. apply (f_equal (@rev N)) in Hr.
    rewrite rev_involutive, Heq, rev_unit in Hr. by eapply lstrip_head.
Qed.

(** X2. Every body of the returned mapping is trimmed: stripping it again
    changes nothing, and neither its first nor its last character is white
    space. *)
Theorem parse_bodies_trimmed (output h b : str) :
  parse_final_output output !! h = Some b →
  strip b = b
  ∧ (∀ c t, b = c :: t → isspace c = false)
  ∧ (∀ c t, b = t ++ [c] → isspace c = false).
Proof.
  intros Hb.
  assert (map_Forall (fun _ b => strip b = b) (parse_final_output output))
    as Hall.
  { apply parse_values; [done|]. intros c _ _. apply strip_idem. }
  pose proof (Hall _ _ Hb) as Hstrip. split; [done|].
  by apply strip_fixed_ends.
Qed.

Lemma parse_bodies_trimmed_witness :
  parse_final_output (report sections_shuffled) !! ACTION_ITEMS = Some (lit "a")
  ∧ strip (lit "a") = lit "a".
Proof.
  assert (parse_final_output (report sections_shuffled) !! ACTION_ITEMS
          = Some (lit "a")) as H by (by vm_compute).
  split; [exact H|].
  exact (proj1 (parse_bodies_trimmed (report sections_shuffled) ACTION_ITEMS
                  (lit "a") H)).
Defined.

(** X3. The parser invents no text: every body of the returned mapping
    occurs in the raw output as a piece of consecutive characters. *)
Theorem parse_body_occurs_in_output (output h b : str) :
  parse_final_output output !! h = Some b → occurs_in b output.
Proof.
  intros Hb.
  assert (map_Forall (fun _ b => occurs_in b output) (parse_final_output output))
    as Hall; [|by eapply Hall].
  apply parse_values; [apply occurs_in_nil|].
  intros c _ Hc. eapply occurs_in_trans; [apply strip_occurs | done].
Qed.

Lemma parse_body_occurs_in_output_witness :
  parse_final_output summary_with_note !! SUMMARY = Some (lit "a")
  ∧ occurs_in (lit "a") summary_with_note.
Proof.
  assert (parse_final_output summary_with_note !! SUMMARY = Some (lit "a")) as H
    by (by vm_compute).
  split; [exact H|].
  exact (parse_body_occurs_in_output summary_with_note SUMMARY (lit "a") H).
Defined.

(** X4. A canonical header that stands nowhere in the raw output behind a
    '#' (with optional white space between) is mapped to the empty string. *)
Theorem parse_unmarked_header_empty (output h : str) :
  h ∈ HEADERS →
  ¬ marked_in h output →
  parse_final_output output !! h = Some [].
Proof.
  intros Hh Hno. unfold parse_final_output.
  rewrite foldl_assign_other; [by apply sections0_lookup|].
  intros ([h' c] & -> & Hin)%list_elem_of_fmap. apply Hno.
  pose proof (findall_from_in (S (length output)) output) as Hall.
  rewrite Forall_forall in Hall. by destruct (Hall _ Hin).
Qed.

Lemma parse_unmarked_header_empty_witness :
  parse_final_output (lit "SUMMARY without a marker") !! SUMMARY = Some [].
Proof.
  apply (parse_unmarked_header_empty (lit "SUMMARY without a marker") SUMMARY).
  - apply (bool_decide_unpack _). by vm_compute.
  - intros (u & w & v & Heq & _).
    assert (HASH ∈ lit "SUMMARY without a marker") as Hin.
    { rewrite Heq. apply elem_of_app. right. by left. }
    revert Hin. apply (bool_decide_unpack _). by vm_compute.
Defined.

Lemma scan_at_double_hash t : scan_at (HASH :: HASH :: t) = None.
Proof. reflexivity. Qed.

Lemma findall_extra_hashes k x :
  findall pattern (replicate k HASH ++ HASH :: x) = findall pattern (HASH :: x).
Proof.
  induction k as [|k IH]; [done|].
  rewrite <- IH. simpl replicate. simpl app. apply findall_miss.
  destruct k; apply scan_at_double_hash.
Qed.

Lemma findall_section h b R :
  h ∈ HEADERS → plain_body b → at_body_end (NL :: R) = true →
  findall pattern (section_text (h, b) ++ R) = (h, lstrip b) :: findall pattern R.
Proof.
  intros Hh [Hb Hfree] HR. unfold section_text. cbn [fst snd].
  change (lit "# ") with ([HASH] ++ [32]).
  rewrite <- !app_assoc. simpl app.
  rewrite (findall_hit _ h (lstrip b) (NL :: R)).
  - by rewrite findall_miss by (by apply scan_at_not_hash).
  - change (HASH :: 32 :: h ++ NL :: b ++ NL :: R)
      with (HASH :: [32] ++ h ++ NL :: b ++ NL :: R).
    rewrite scan_at_header by done.
    change (lstrip (NL :: b ++ NL :: R)) with (lstrip (b ++ NL :: R)).
    rewrite lstrip_app by (by apply strip_nonempty_lstrip).
    rewrite body_split_app; [done | by apply nl_hash_free_lstrip | done].
Qed.

Lemma at_body_end_report_at_level k l : at_body_end (NL :: report_at_level k l) = true.
Proof. destruct l as [|[h b] l]; [done|]. by destruct k. Qed.

Lemma findall_report_at_level k (l : list (str * str)) :
  Forall (fun hb => hb.1 ∈ HEADERS ∧ plain_body hb.2) l →
  findall pattern (report_at_level k l) = map (fun hb => (hb.1, lstrip hb.2)) l.
Proof.
  induction l as [|[h b] l IH]; [done|].
  intros [[Hh Hb] Hl]%Forall_cons. cbn [fst snd] in Hh, Hb.
  assert (report_at_level k ((h, b) :: l)
          = replicate k HASH ++ section_text (h, b) ++ report_at_level k l) as ->.
  { unfold report_at_level, heading. cbn [map concat]. by rewrite <- app_assoc. }
  assert (section_text (h, b) ++ report_at_level k l
          = HASH :: ([32] ++ h ++ [NL] ++ b ++ [NL]) ++ report_at_level k l) as Hcons
    by done.
  rewrite Hcons, findall_extra_hashes, <- Hcons.
  rewrite findall_section; [|done|done|apply at_body_end_report_at_level].
  simpl map. f_equal. auto.
Qed.

(** X5. The level of the headings does not matter: a report whose sections
    are introduced by "##", "###", ... instead of "#" is parsed like the
    report with single '#' (bodies with a character that is not white space
    and without a newline followed by '#'). *)
Theorem parse_heading_level (k : nat) (l : list (str * str)) :
  Forall (fun hb => hb.1 ∈ HEADERS ∧ plain_body hb.2) l →
  parse_final_output (report_at_level k l) = parse_final_output (report l).
Proof.
  intros Hl. unfold parse_final_output.
  by rewrite findall_report_at_level, findall_report.
Qed.

Lemma parse_heading_level_witness :
  parse_final_output (report_at_level 2 sections_shuffled)
  = parse_final_output (report sections_shuffled)
  ∧ parse_final_output (report_at_level 2 sections_shuffled) !! MEETING_SCRIPT
    = Some (lit "m").
Proof.
  assert (parse_final_output (report_at_level 2 sections_shuffled)
          = parse_final_output (report sections_shuffled)) as H.
  { apply (parse_heading_level 2 sections_shuffled).
    repeat constructor; try (by vm_compute);
      apply (bool_decide_unpack _); by vm_compute. }
  split; [exact H|]. by vm_compute.
Defined.

Lemma parse_value_plain (output h b : str) :
  parse_final_output output !! h = Some b →
  nl_hash_free b = true ∧ strip b = b.
Proof.
  intros Hb.
  assert (map_Forall (fun _ b => nl_hash_free b = true ∧ strip b = b)
            (parse_final_output output)) as Hall; [|by eapply Hall].
  apply parse_values; [done|]. intros c Hc _.
  split; [by apply nl_hash_free_strip | apply strip_idem].
Qed.

(** X6. Parsing is stable under writing the result out again: when none of
    the six parsed sections is empty, the report written from the parsed
    mapping parses to the same mapping. *)
Theorem parse_rerender (output : str) :
  Forall (fun h => parse_final_output output !! h ≠ Some []) HEADERS →
  parse_final_output (rerender (parse_final_output output))
  = parse_final_output output.
Proof.
  intros Hfull. rewrite Forall_forall in Hfull. unfold rerender.
  set (sections := parse_final_output output) in *.
  set (l := map (fun h => (h, default [] (sections !! h))) HEADERS).
  assert (l.*1 = HEADERS) as Hfst.
  { unfold l. rewrite <- list_fmap_compose. apply list_fmap_id. }
  assert (∀ h b, (h, b) ∈ l → h ∈ HEADERS ∧ sections !! h = Some b) as Hl.
  { intros h b (h' & [= -> ->] & Hh)%list_elem_of_fmap. split; [done|].
    assert (h' ∈ dom sections) as Hd
      by (unfold sections; rewrite parse_dom; by apply elem_of_list_to_set).
    apply elem_of_dom in Hd as [v Hv]. by rewrite Hv. }
  assert (Forall (fun hb => hb.1 ∈ HEADERS ∧ plain_body hb.2) l) as Hgood.
  { apply Forall_forall. intros [h b] Hin. destruct (Hl _ _ Hin) as [Hh Hb].
    cbn [fst snd]. split; [done|].
    destruct (parse_value_plain _ _ _ Hb) as [Hfree Hstrip].
    split; [|done]. rewrite Hstrip. intros ->. by apply (Hfull h). }
  apply map_eq. intros k. destruct (decide (k ∈ HEADERS)) as [Hk|Hk].
  - assert (k ∈ l.*1) as Hin by (by rewrite Hfst).
    apply list_elem_of_fmap in Hin as ([h b] & -> & Hin). cbn [fst].
    destruct (Hl _ _ Hin) as [_ Hb].
    rewrite (parse_report_lookup l h b); [| rewrite Hfst; apply NoDup_HEADERS |done|done].
    rewrite Hb. f_equal. by destruct (parse_value_plain _ _ _ Hb).
  - transitivity (@None str).
    + apply not_elem_of_dom. rewrite parse_dom. by rewrite elem_of_list_to_set.
    + symmetry. apply not_elem_of_dom. unfold sections. rewrite parse_dom.
      by rewrite elem_of_list_to_set.
Qed.

Lemma parse_rerender_witness :
  parse_final_output (rerender (parse_final_output (report sections_shuffled)))
  = parse_final_output (report sections_shuffled).
Proof.
  apply (parse_rerender (report sections_shuffled)).
  repeat constructor; by vm_compute.
Defined.

(** * Further properties of the corpus *)

Lemma foldl_page_lines (pages : list (option str)) (text : str) :
  foldl (fun text page =>
           match page with
           | Some t => if truthy t then text ++ t ++ [NL] else text
           | None => text
           end) text pages
  = text ++ concat (map page_line pages).
Proof.
  revert text. induction pages as [|page pages IH]; intros text; simpl.
  - by rewrite app_nil_r.
  - rewrite IH. destruct page as [t|]; simpl; [|done].
    destruct (truthy t); [by rewrite <- app_assoc | done].
Qed.

Lemma concat_nil_Forall (ls : list str) : concat ls = [] ↔ Forall (fun l => l = []) ls.
Proof.
  induction ls as [|l ls IH]; simpl.
  - split; [by constructor | done].
  - rewrite Forall_cons, <- IH. split.
    + by intros [-> ->]%app_eq_nil.
    + by intros [-> ->].
Qed.

(** X7. The text of a PDF is the text of its pages in page order, each
    followed by a newline; a page without text adds nothing, not even the
    newline, so the text is empty exactly when no page has text. *)
Theorem pdf_text_is_page_lines (page_texts : list Byte.byte → list (option str))
    (file : UploadedFile) :
  extract_pdf_text page_texts file
  = concat (map page_line (page_texts (getvalue file)))
  ∧ (extract_pdf_text page_texts file = [] ↔
     Forall (fun page => page = None ∨ page = Some [])
       (page_texts (getvalue file))).
Proof.
  assert (extract_pdf_text page_texts file
          = concat (map page_line (page_texts (getvalue file)))) as Heq.
  { unfold extract_pdf_text. by rewrite foldl_page_lines. }
  split; [done|]. rewrite Heq, concat_nil_Forall, Forall_fmap.
  apply Forall_iff. intros [[|c t]|]; simpl.
  - split; [by right | done].
  - split; [done | by intros [?|?]].
  - split; [by left | done].
Qed.

Lemma add_file_text (page_texts : list Byte.byte → list (option str))
    (decode_utf8 : list Byte.byte → option str) (f : UploadedFile) (full_text : str) :
  add_file page_texts decode_utf8 full_text f
  = (fun t => full_text ++ t ++ [NL]) <$> file_text page_texts decode_utf8 f.
Proof.
  unfold add_file, file_text.
  destruct (bool_decide (type f = lit "application/pdf")); [done|].
  by destruct (decode_utf8 (getvalue f)).
Qed.

Lemma add_files_mapM (page_texts : list Byte.byte → list (option str))
    (decode_utf8 : list Byte.byte → option str)
    (uploaded : list UploadedFile) (full_text : str) :
  add_files page_texts decode_utf8 full_text uploaded
  = (fun ts => full_text ++ concat (map (fun t => t ++ [NL]) ts))
      <$> mapM (file_text page_texts decode_utf8) uploaded.
Proof.
  revert full_text. induction uploaded as [|f fs IH]; intros full_text.
  - simpl. by rewrite app_nil_r.
  - cbn [add_files mapM]. rewrite add_file_text.
    destruct (file_text page_texts decode_utf8 f) as [t|]; simpl; [|done].
    rewrite IH.
    destruct (mapM (file_text page_texts decode_utf8) fs); simpl; [|done].
    by rewrite <- !app_assoc.
Qed.

Lemma build_full_text_mapM (page_texts : list Byte.byte → list (option str))
    (decode_utf8 : list Byte.byte → option str) (uploaded : list UploadedFile) :
  build_full_text page_texts decode_utf8 uploaded
  = (fun ts => concat (map (fun t => t ++ [NL]) ts))
      <$> mapM (file_text page_texts decode_utf8) uploaded.
Proof.
  destruct uploaded as [|f fs]; [done|].
  unfold build_full_text. by rewrite add_files_mapM.
Qed.

(** X8. The combined text is the text of every uploaded file, PDF or not,
    in upload order, each followed by one newline; it exists exactly when
    every file has a text. *)
Theorem corpus_is_concatenation (page_texts : list Byte.byte → list (option str))
    (decode_utf8 : list Byte.byte → option str) (uploaded : list UploadedFile) :
  build_full_text page_texts decode_utf8 uploaded
  = (fun ts => concat (map (fun t => t ++ [NL]) ts))
      <$> mapM (file_text page_texts decode_utf8) uploaded.
Proof. apply build_full_text_mapM. Qed.

(** X9. Building the combined text raises whenever some uploaded file
    that is not a PDF cannot be decoded as UTF-8, whatever the other files
    are; and when none of the uploaded files is a PDF, it raises only
    then. *)
Theorem corpus_fails_iff_undecodable
    (page_texts : list Byte.byte → list (option str))
    (decode_utf8 : list Byte.byte → option str) (uploaded : list UploadedFile) :
  (Exists (undecodable decode_utf8) uploaded →
   build_full_text page_texts decode_utf8 uploaded = None)
  ∧ (Forall (fun f => type f ≠ lit "application/pdf") uploaded →
     build_full_text page_texts decode_utf8 uploaded = None →
     Exists (undecodable decode_utf8) uploaded).
Proof.
  rewrite build_full_text_mapM, fmap_None, mapM_None, !Exists_exists.
  split.
  - intros (f & Hin & Htype & Hdec). exists f. split; [done|].
    unfold file_text. by rewrite bool_decide_eq_false_2.
  - intros Htext (f & Hin & Hnone). exists f. split; [done|].
    rewrite Forall_forall in Htext. pose proof (Htext _ Hin) as Htype.
    split; [done|]. unfold file_text in Hnone.
    by rewrite bool_decide_eq_false_2 in Hnone.
Qed.

Lemma corpus_fails_iff_undecodable_witness :
  build_full_text pages_of_sample decode_ascii [file_A; file_latin1; file_pdf] = None
  ∧ (build_full_text pages_of_sample decode_ascii [file_A; file_latin1] = None →
     Exists (undecodable decode_ascii) [file_A; file_latin1]).
Proof.
  split.
  - apply (proj1 (corpus_fails_iff_undecodable pages_of_sample decode_ascii
                    [file_A; file_latin1; file_pdf])).
    apply Exists_cons_tl, Exists_cons_hd. split; by vm_compute.
  - apply (proj2 (corpus_fails_iff_undecodable pages_of_sample decode_ascii
                    [file_A; file_latin1])).
    repeat constructor; by vm_compute.
Defined.

(** X10. Uploading more files appends: the combined text of two lists of
    files one after the other is the combined text of the first followed by
    that of the second, and it raises when either does. *)
Theorem corpus_of_appended_uploads
    (page_texts : list Byte.byte → list (option str))
    (decode_utf8 : list Byte.byte → option str) (fs1 fs2 : list UploadedFile) :
  build_full_text page_texts decode_utf8 (fs1 ++ fs2)
  = t1 ← build_full_text page_texts decode_utf8 fs1;
    t2 ← build_full_text page_texts decode_utf8 fs2;
    Some (t1 ++ t2).
Proof.
  rewrite !build_full_text_mapM.
  induction fs1 as [|f fs1 IH]; simpl.
  - by destruct (mapM (file_text page_texts decode_utf8) fs2).
  - destruct (file_text page_texts decode_utf8 f) as [t|]; simpl; [|done].
    revert IH.
    destruct (mapM (file_text page_texts decode_utf8) (fs1 ++ fs2)) as [ts|],
      (mapM (file_text page_texts decode_utf8) fs1) as [ts1|],
      (mapM (file_text page_texts decode_utf8) fs2) as [ts2|]; simpl;
      try done.
    intros [= ->]. by rewrite <- !app_assoc.
Qed.

(** * Further properties of the orchestrator *)

(** X11. The input reaches the run through the first task only, and only
    with its first 100,000 characters: a run that gets past the key check
    kicks off one crew with six tasks, whether the kickoff fails or not; the
    other five tasks are the same for every input; and two inputs that agree
    on their first 100,000 characters give the same outcome and kick off the
    same crew. *)
Theorem only_first_task_sees_the_text {Exn}
    (crew_kickoff : Crew → Exn + CrewOutput)
    (environ : gmap str str) (text1 text2 : str) :
  attr_truthy (environ !! GEMINI_API_KEY) = true →
  length (run_meeting_prep_crew crew_kickoff environ text1 []).2 = 1%nat
  ∧ length (generation_tasks
              (run_meeting_prep_crew crew_kickoff environ text1 []).2) = 6%nat
  ∧ drop 1 (generation_tasks
              (run_meeting_prep_crew crew_kickoff environ text1 []).2)
    = drop 1 (generation_tasks
                (run_meeting_prep_crew crew_kickoff environ text2 []).2)
  ∧ (take (Z.to_nat 100000) text1 = take (Z.to_nat 100000) text2 →
     run_meeting_prep_crew crew_kickoff environ text1 []
     = run_meeting_prep_crew crew_kickoff environ text2 []).
Proof.
  intros Hkey. rewrite !run_with_key by done. cbv zeta.
  split; [done|]. split; [done|]. split; [done|]. by intros ->.
Qed.

Lemma only_first_task_sees_the_text_witness :
  length (generation_tasks
            (run_meeting_prep_crew failing_kickoff environ_with_key
               (replicate (Z.to_nat 100000) 97 ++ lit "x") []).2)
  = 6%nat
  ∧ run_meeting_prep_crew failing_kickoff environ_with_key
      (replicate (Z.to_nat 100000) 97 ++ lit "x") []
    = run_meeting_prep_crew failing_kickoff environ_with_key
        (replicate (Z.to_nat 100000) 97 ++ lit "yz") [].
Proof.
  destruct (only_first_task_sees_the_text failing_kickoff environ_with_key
              (replicate (Z.to_nat 100000) 97 ++ lit "x")
              (replicate (Z.to_nat 100000) 97 ++ lit "yz"))
    as (_ & Hsix & _ & Hcap); [by vm_compute|].
  split; [exact Hsix|]. apply Hcap.
  by rewrite !take_app_length' by (by rewrite length_replicate).
Defined.

(** X12. When the kickoff succeeds the run returns the first non-empty one
    of the result's raw_output, final_output and output, where a missing
    attribute counts as empty, and str(result) when all three are empty; so
    the run returns the empty string only when str(result) is empty. *)
Theorem run_returns_first_nonempty_attribute {Exn}
    (crew_kickoff : Crew → Exn + CrewOutput)
    (environ : gmap str str) (full_text : str) (log : list Crew)
    (result : CrewOutput) :
  attr_truthy (environ !! GEMINI_API_KEY) = true →
  crew_kickoff (build_crew (take (Z.to_nat 100000) full_text)) = inr result →
  ∃ value,
    (run_meeting_prep_crew crew_kickoff environ full_text log).1 = Returned value
    ∧ (attr_truthy (raw_output result) = true → raw_output result = Some value)
    ∧ (attr_truthy (raw_output result) = false →
       attr_truthy (final_output result) = true → final_output result = Some value)
    ∧ (attr_truthy (raw_output result) = false →
       attr_truthy (final_output result) = false →
       attr_truthy (output result) = true → output result = Some value)
    ∧ (attr_truthy (raw_output result) = false →
       attr_truthy (final_output result) = false →
       attr_truthy (output result) = false → value = to_str result)
    ∧ (value = [] → to_str result = []).
Proof.
  intros Hkey Hok. exists (result_string result).
  rewrite run_with_key by done. cbv zeta. rewrite Hok. cbn [fst].
  split; [done|]. unfold result_string.
  destruct (raw_output result) as [[|c1 r1]|], (final_output result) as [[|c2 r2]|],
    (output result) as [[|c3 r3]|]; simpl; repeat split; done.
Qed.

Lemma run_returns_first_nonempty_attribute_witness :
  ∃ value,
    (run_meeting_prep_crew bare_kickoff environ_with_key (lit "notes") []).1
    = Returned value
    ∧ value = twice_summary.
Proof.
  destruct (run_returns_first_nonempty_attribute bare_kickoff environ_with_key
              (lit "notes") []
              {| raw_output := None; final_output := None; output := Some [];
                 to_str := twice_summary |})
    as (value & Hrun & _ & _ & _ & Hstr & _); [by vm_compute | reflexivity |].
  exists value. split; [exact Hrun|].
  apply Hstr; reflexivity.
Defined.

(** * Properties of the page script *)

Lemma parse_lookup_total (output h : str) :
  h ∈ HEADERS → ∃ v, parse_final_output output !! h = Some v.
Proof.
  intros Hh. assert (h ∈ dom (parse_final_output output)) as Hd
    by (rewrite parse_dom; by apply elem_of_list_to_set).
  by apply elem_of_dom in Hd.
Qed.

Ltac script_steps :=
  cbv beta iota delta
    [main_ui run_agents display text_area subscript emit st_stop raise
     set_session get_session call fresh mbind mret script_bind script_ret
     session_state kickoffs ui].

Lemma display_stored {Exn} (p : page) (raw : str) :
  session_state p !! RAW_OUTPUT = Some raw →
  display (Exn := Exn) p
  = (Value tt,
     {| session_state := session_state p; kickoffs := kickoffs p;
        ui := ui p ++ panels raw |}).
Proof.
  intros Hraw. destruct p as [state log events]. simpl in Hraw.
  script_steps. rewrite Hraw. script_steps. unfold panels.
  assert (∀ h, h ∈ HEADERS → ∃ v, parse_final_output raw !! h = Some v) as Htotal
    by (intros; by apply parse_lookup_total).
  destruct (Htotal SUMMARY) as [v1 ->]; [apply (bool_decide_unpack _); by vm_compute|].
  script_steps.
  destruct (Htotal KEY_DISCUSSION_POINTS) as [v2 ->];
    [apply (bool_decide_unpack _); by vm_compute|].
  script_steps.
  destruct (Htotal ACTION_ITEMS) as [v3 ->];
    [apply (bool_decide_unpack _); by vm_compute|].
  script_steps.
  destruct (Htotal SUGGESTED_QUESTIONS) as [v4 ->];
    [apply (bool_decide_unpack _); by vm_compute|].
  script_steps.
  destruct (Htotal RISKS_AND_MISSING_INFO) as [v5 ->];
    [apply (bool_decide_unpack _); by vm_compute|].
  script_steps.
  destruct (Htotal MEETING_SCRIPT) as [v6 ->];
    [apply (bool_decide_unpack _); by vm_compute|].
  script_steps. cbn [default]. by rewrite <- !app_assoc.
Qed.

Lemma display_nothing {Exn} (p : page) :
  session_state p !! RAW_OUTPUT = None →
  display (Exn := Exn) p = (Value tt, p).
Proof.
  intros Hraw. destruct p as [state log events]. simpl in Hraw.
  script_steps. by rewrite Hraw.
Qed.

Lemma run_agents_no_text {Exn} (crew_kickoff : Crew → Exn + CrewOutput)
    (environ : gmap str str) (full_text : str) (p : page) :
  strip full_text = [] →
  run_agents Exn crew_kickoff environ full_text p
  = (Halt,
     {| session_state := session_state p; kickoffs := kickoffs p;
        ui := ui p ++ [st_warning (lit "Please upload at least 1 document.")] |}).
Proof. intros Hnone. destruct p. script_steps. by rewrite Hnone. Qed.

Lemma run_agents_text {Exn} (crew_kickoff : Crew → Exn + CrewOutput)
    (environ : gmap str str) (full_text : str) (p : page) :
  strip full_text ≠ [] →
  run_agents Exn crew_kickoff environ full_text p
  = match run_meeting_prep_crew crew_kickoff environ full_text (kickoffs p) with
    | (Returned final_output, log) =>
        (Value tt,
         {| session_state := <[RAW_OUTPUT := final_output]> (session_state p);
            kickoffs := log;
            ui := ui p ++ [st_spinner SPINNER; st_success (lit "Processing complete!")] |})
    | (Raised e, log) =>
        (Crash (CrewError e),
         {| session_state := session_state p; kickoffs := log;
            ui := ui p ++ [st_spinner SPINNER] |})
    end.
Proof.
  intros Hsome. destruct p as [state log events]. script_steps.
  destruct (strip full_text) as [|c t]; [done|]. cbn [truthy negb]. script_steps.
  destruct (run_meeting_prep_crew crew_kickoff environ full_text log)
    as [[final_output|e] log']; script_steps; [|done].
  by rewrite <- app_assoc.
Qed.

Lemma main_ui_steps {Exn} (page_texts : list Byte.byte → list (option str))
    (decode_utf8 : list Byte.byte → option str)
    (crew_kickoff : Crew → Exn + CrewOutput)
    (uploaded : list UploadedFile) (button : bool) (environ state : gmap str str) :
  main_ui page_texts decode_utf8 crew_kickoff uploaded button environ (fresh state)
  = match build_full_text page_texts decode_utf8 uploaded with
    | None =>
        (Crash UnicodeDecodeError,
         {| session_state := state; kickoffs := []; ui := HEAD_EVENTS |})
    | Some full_text =>
        let p := {| session_state := state; kickoffs := [];
                    ui := HEAD_EVENTS ++ [st_button (lit "Run Agents")] |} in
        if button then
          match run_agents Exn crew_kickoff environ full_text p with
          | (Value _, p') => display p'
          | (Halt, p') => (Halt, p')
          | (Crash e, p') => (Crash e, p')
          end
        else display p
    end.
Proof.
  cbv beta iota delta
    [main_ui emit raise fresh mbind mret script_bind script_ret
     session_state kickoffs ui].
  destruct (build_full_text page_texts decode_utf8 uploaded) as [full_text|];
    [|done].
  cbv beta iota delta [mbind mret script_bind script_ret].
  by destruct button.
Qed.

Lemma strip_space (s : str) : forallb isspace s = true → strip s = [].
Proof.
  intros Hs. unfold strip.
  rewrite <- (app_nil_r s), lstrip_app_space by done. done.
Qed.

(** X13. Pressing "Run Agents" when the combined text is empty or white
    space only (no upload at all, for one) shows the warning and stops the
    script: no crew is kicked off, the session state is untouched, and
    nothing is displayed, not even a result stored earlier. *)
Theorem no_document_stops_the_run {Exn}
    (page_texts : list Byte.byte → list (option str))
    (decode_utf8 : list Byte.byte → option str)
    (crew_kickoff : Crew → Exn + CrewOutput)
    (uploaded : list UploadedFile) (environ state : gmap str str)
    (full_text : str) :
  build_full_text page_texts decode_utf8 uploaded = Some full_text →
  strip full_text = [] →
  main_ui page_texts decode_utf8 crew_kickoff uploaded true environ (fresh state)
  = (Halt,
     {| session_state := state; kickoffs := [];
        ui := HEAD_EVENTS ++
              [st_button (lit "Run Agents");
               st_warning (lit "Please upload at least 1 document.")] |}).
Proof.
  intros Hbuild Hnone. rewrite main_ui_steps, Hbuild. cbv zeta.
  rewrite run_agents_no_text by done. cbn [session_state kickoffs ui].
  by rewrite <- app_assoc.
Qed.

Lemma no_document_stops_the_run_witness :
  main_ui (fun _ => []) decode_ascii reporting_kickoff [] true environ_with_key
    (fresh {[ RAW_OUTPUT := twice_summary ]})
  = (Halt,
     {| session_state := {[ RAW_OUTPUT := twice_summary ]}; kickoffs := [];
        ui := HEAD_EVENTS ++
              [st_button (lit "Run Agents");
               st_warning (lit "Please upload at least 1 document.")] |}).
Proof.
  apply (no_document_stops_the_run (fun _ => []) decode_ascii reporting_kickoff
           [] environ_with_key {[ RAW_OUTPUT := twice_summary ]} []);
    reflexivity.
Defined.

Lemma scans_have_no_text (page_texts : list Byte.byte → list (option str))
    (decode_utf8 : list Byte.byte → option str) (uploaded : list UploadedFile) :
  Forall (fun f => type f = lit "application/pdf"
                   ∧ Forall (fun page => page = None ∨ page = Some [])
                       (page_texts (getvalue f))) uploaded →
  build_full_text page_texts decode_utf8 uploaded
  = Some (replicate (length uploaded) NL).
Proof.
  intros Hscans. rewrite build_full_text_mapM.
  induction Hscans as [|f fs [Hpdf Hpages] _ IH]; [done|].
  assert (file_text page_texts decode_utf8 f = Some []) as Hf.
  { unfold file_text. rewrite bool_decide_eq_true_2 by done. f_equal.
    unfold extract_pdf_text. rewrite foldl_page_lines.
    apply concat_nil_Forall, Forall_fmap.
    eapply Forall_impl; [exact Hpages|]. by intros page [->| ->]. }
  cbn [mapM length replicate]. rewrite Hf.
  destruct (mapM (file_text page_texts decode_utf8) fs) as [ts|]; [|done].
  simpl in *. by injection IH as ->.
Qed.

(** X14. PDFs of which no page gives text count as no document: with only
    such files uploaded, "Run Agents" shows the warning and stops, and no
    crew is kicked off. *)
Theorem scanned_pdfs_count_as_no_document {Exn}
    (page_texts : list Byte.byte → list (option str))
    (decode_utf8 : list Byte.byte → option str)
    (crew_kickoff : Crew → Exn + CrewOutput)
    (uploaded : list UploadedFile) (environ state : gmap str str) :
  Forall (fun f => type f = lit "application/pdf"
                   ∧ Forall (fun page => page = None ∨ page = Some [])
                       (page_texts (getvalue f))) uploaded →
  main_ui page_texts decode_utf8 crew_kickoff uploaded true environ (fresh state)
  = (Halt,
     {| session_state := state; kickoffs := [];
        ui := HEAD_EVENTS ++
              [st_button (lit "Run Agents");
               st_warning (lit "Please upload at least 1 document.")] |}).
Proof.
  intros Hscans%(scans_have_no_text page_texts decode_utf8).
  rewrite main_ui_steps, Hscans. cbv zeta.
  rewrite run_agents_no_text; [cbn [session_state kickoffs ui]; by rewrite <- app_assoc|].
  apply strip_space. generalize (length uploaded). intros n.
  induction n as [|n IH]; [done|]. simpl. by rewrite IH.
Qed.

Lemma scanned_pdfs_count_as_no_document_witness :
  main_ui pages_of_scan decode_ascii reporting_kickoff [file_pdf; file_pdf] true
    environ_with_key (fresh ∅)
  = (Halt,
     {| session_state := ∅; kickoffs := [];
        ui := HEAD_EVENTS ++
              [st_button (lit "Run Agents");
               st_warning (lit "Please upload at least 1 document.")] |}).
Proof.
  apply (scanned_pdfs_count_as_no_document pages_of_scan decode_ascii
           reporting_kickoff [file_pdf; file_pdf] environ_with_key ∅).
  repeat constructor; by vm_compute.
Defined.

(** X15. Pressing "Run Agents" with a document but without the API key
    looks like a success on the page: the error message is stored as the
    raw output, "Processing complete!" is shown, the raw panel shows the
    message and all six section panels are empty; no crew is kicked off. *)
Theorem missing_key_is_shown_as_success {Exn}
    (page_texts : list Byte.byte → list (option str))
    (decode_utf8 : list Byte.byte → option str)
    (crew_kickoff : Crew → Exn + CrewOutput)
    (uploaded : list UploadedFile) (environ state : gmap str str)
    (full_text : str) :
  build_full_text page_texts decode_utf8 uploaded = Some full_text →
  strip full_text ≠ [] →
  attr_truthy (environ !! GEMINI_API_KEY) = false →
  main_ui page_texts decode_utf8 crew_kickoff uploaded true environ (fresh state)
  = (Value tt,
     {| session_state := <[RAW_OUTPUT := ERROR_MESSAGE]> state; kickoffs := [];
        ui := HEAD_EVENTS ++
              [st_button (lit "Run Agents"); st_spinner SPINNER;
               st_success (lit "Processing complete!");
               st_expander EXPANDER; st_code ERROR_MESSAGE; st_tabs TABS;
               st_text_area (lit "Summary") [] 300;
               st_text_area (lit "Key Discussion Points") [] 300;
               st_text_area (lit "Action Items") [] 300;
               st_text_area (lit "Suggested Questions") [] 300;
               st_text_area (lit "Risks & Missing Info") [] 300;
               st_text_area (lit "Meeting Script") [] 400] |}).
Proof.
  intros Hbuild Hsome Hkey. rewrite main_ui_steps, Hbuild. cbv zeta.
  rewrite run_agents_text by done. unfold run_meeting_prep_crew.
  rewrite Hkey. cbn [negb ret kickoffs session_state ui].
  rewrite (display_stored _ ERROR_MESSAGE) by apply lookup_insert_eq.
  cbn [session_state kickoffs ui].
  assert (panels ERROR_MESSAGE
          = [st_expander EXPANDER; st_code ERROR_MESSAGE; st_tabs TABS;
             st_text_area (lit "Summary") [] 300;
             st_text_area (lit "Key Discussion Points") [] 300;
             st_text_area (lit "Action Items") [] 300;
             st_text_area (lit "Suggested Questions") [] 300;
             st_text_area (lit "Risks & Missing Info") [] 300;
             st_text_area (lit "Meeting Script") [] 400]) as ->
    by (by vm_compute).
  by rewrite <- !app_assoc.
Qed.

Lemma missing_key_is_shown_as_success_witness :
  main_ui (fun _ => []) decode_ascii reporting_kickoff [file_A] true ∅ (fresh ∅)
  = (Value tt,
     {| session_state := <[RAW_OUTPUT := ERROR_MESSAGE]> ∅; kickoffs := [];
        ui := HEAD_EVENTS ++
              [st_button (lit "Run Agents"); st_spinner SPINNER;
               st_success (lit "Processing complete!");
               st_expander EXPANDER; st_code ERROR_MESSAGE; st_tabs TABS;
               st_text_area (lit "Summary") [] 300;
               st_text_area (lit "Key Discussion Points") [] 300;
               st_text_area (lit "Action Items") [] 300;
               st_text_area (lit "Suggested Questions") [] 300;
               st_text_area (lit "Risks & Missing Info") [] 300;
               st_text_area (lit "Meeting Script") [] 400] |}).
Proof.
  apply (missing_key_is_shown_as_success (fun _ => []) decode_ascii
           reporting_kickoff [file_A] ∅ ∅ (lit "A" ++ [NL]));
    by vm_compute.
Defined.

(** X16. When the kickoff fails the exception goes through the script: the
    spinner was shown, no success message is, the session state keeps what
    it had, and nothing is displayed. *)
Theorem kickoff_failure_crashes_the_script {Exn}
    (page_texts : list Byte.byte → list (option str))
    (decode_utf8 : list Byte.byte → option str)
    (crew_kickoff : Crew → Exn + CrewOutput)
    (uploaded : list UploadedFile) (environ state : gmap str str)
    (full_text : str) (e : Exn) :
  build_full_text page_texts decode_utf8 uploaded = Some full_text →
  strip full_text ≠ [] →
  attr_truthy (environ !! GEMINI_API_KEY) = true →
  crew_kickoff (build_crew (take (Z.to_nat 100000) full_text)) = inl e →
  main_ui page_texts decode_utf8 crew_kickoff uploaded true environ (fresh state)
  = (Crash (CrewError e),
     {| session_state := state;
        kickoffs := [build_crew (take (Z.to_nat 100000) full_text)];
        ui := HEAD_EVENTS ++ [st_button (lit "Run Agents"); st_spinner SPINNER] |}).
Proof.
  intros Hbuild Hsome Hkey Hfail. rewrite main_ui_steps, Hbuild. cbv zeta.
  rewrite run_agents_text by done. rewrite run_with_key by done. cbv zeta.
  rewrite Hfail. cbn [session_state kickoffs ui app].
  by rewrite <- !app_assoc.
Qed.

Lemma kickoff_failure_crashes_the_script_witness :
  main_ui (fun _ => []) decode_ascii failing_kickoff [file_A] true environ_with_key
    (fresh {[ RAW_OUTPUT := twice_summary ]})
  = (Crash (CrewError (LibraryFailure (lit "quota exceeded"))),
     {| session_state := {[ RAW_OUTPUT := twice_summary ]};
        kickoffs := [build_crew (take (Z.to_nat 100000) (lit "A" ++ [NL]))];
        ui := HEAD_EVENTS ++ [st_button (lit "Run Agents"); st_spinner SPINNER] |}).
Proof.
  apply (kickoff_failure_crashes_the_script (fun _ => []) decode_ascii
           failing_kickoff [file_A] environ_with_key
           {[ RAW_OUTPUT := twice_summary ]} (lit "A" ++ [NL])
           (LibraryFailure (lit "quota exceeded")));
    by vm_compute.
Defined.

(** X17. A successful run stores the string the run returned as the raw
    output, replacing what was stored, shows "Processing complete!" and
    then the raw panel and the six section panels of that string, parsed. *)
Theorem successful_run_is_stored_and_shown {Exn}
    (page_texts : list Byte.byte → list (option str))
    (decode_utf8 : list Byte.byte → option str)
    (crew_kickoff : Crew → Exn + CrewOutput)
    (uploaded : list UploadedFile) (environ state : gmap str str)
    (full_text : str) (result : CrewOutput) :
  build_full_text page_texts decode_utf8 uploaded = Some full_text →
  strip full_text ≠ [] →
  attr_truthy (environ !! GEMINI_API_KEY) = true →
  crew_kickoff (build_crew (take (Z.to_nat 100000) full_text)) = inr result →
  main_ui page_texts decode_utf8 crew_kickoff uploaded true environ (fresh state)
  = (Value tt,
     {| session_state := <[RAW_OUTPUT := result_string result]> state;
        kickoffs := [build_crew (take (Z.to_nat 100000) full_text)];
        ui := HEAD_EVENTS ++
              [st_button (lit "Run Agents"); st_spinner SPINNER;
               st_success (lit "Processing complete!")]
              ++ panels (result_string result) |}).
Proof.
  intros Hbuild Hsome Hkey Hok. rewrite main_ui_steps, Hbuild. cbv zeta.
  rewrite run_agents_text by done. rewrite run_with_key by done. cbv zeta.
  rewrite Hok. cbn [session_state kickoffs ui app].
  rewrite (display_stored _ (result_string result)) by apply lookup_insert_eq.
  cbn [session_state kickoffs ui]. by rewrite <- !app_assoc.
Qed.

Lemma successful_run_is_stored_and_shown_witness :
  main_ui (fun _ => []) decode_ascii reporting_kickoff [file_A] true environ_with_key
    (fresh ∅)
  = (Value tt,
     {| session_state := {[ RAW_OUTPUT := twice_summary ]};
        kickoffs := [build_crew (take (Z.to_nat 100000) (lit "A" ++ [NL]))];
        ui := HEAD_EVENTS ++
              [st_button (lit "Run Agents"); st_spinner SPINNER;
               st_success (lit "Processing complete!")]
              ++ panels twice_summary |}).
Proof.
  apply (successful_run_is_stored_and_shown (fun _ => []) decode_ascii
           reporting_kickoff [file_A] environ_with_key ∅ (lit "A" ++ [NL])
           {| raw_output := Some twice_summary; final_output := None;
              output := None; to_str := [] |});
    by vm_compute.
Defined.

(** X18. A run of the script without the button pressed kicks off no crew
    and leaves the session state as it is; it shows the panels of the stored
    raw output when there is one, and nothing more than the widgets when
    there is none. *)
Theorem idle_run_shows_the_stored_output {Exn}
    (page_texts : list Byte.byte → list (option str))
    (decode_utf8 : list Byte.byte → option str)
    (crew_kickoff : Crew → Exn + CrewOutput)
    (uploaded : list UploadedFile) (environ state : gmap str str)
    (full_text : str) :
  build_full_text page_texts decode_utf8 uploaded = Some full_text →
  main_ui page_texts decode_utf8 crew_kickoff uploaded false environ (fresh state)
  = (Value tt,
     {| session_state := state; kickoffs := [];
        ui := HEAD_EVENTS ++ [st_button (lit "Run Agents")]
              ++ match state !! RAW_OUTPUT with
                 | Some raw => panels raw
                 | None => []
                 end |}).
Proof.
  intros Hbuild. rewrite main_ui_steps, Hbuild. cbv zeta.
  destruct (state !! RAW_OUTPUT) as [raw|] eqn:Hraw.
  - rewrite (display_stored _ raw) by done. cbn [session_state kickoffs ui].
    by rewrite <- !app_assoc.
  - rewrite display_nothing by done. by rewrite app_nil_r.
Qed.

Lemma idle_run_shows_the_stored_output_witness :
  main_ui (fun _ => []) decode_ascii failing_kickoff [file_A; file_B] false ∅
    (fresh {[ RAW_OUTPUT := twice_summary ]})
  = (Value tt,
     {| session_state := {[ RAW_OUTPUT := twice_summary ]}; kickoffs := [];
        ui := HEAD_EVENTS ++ [st_button (lit "Run Agents")] ++ panels twice_summary |}).
Proof.
  rewrite (idle_run_shows_the_stored_output (fun _ => []) decode_ascii
             failing_kickoff [file_A; file_B] ∅ {[ RAW_OUTPUT := twice_summary ]}
             (lit "A" ++ [NL] ++ lit "B" ++ [NL])) by (by vm_compute).
  by rewrite lookup_singleton_eq.
Defined.

(** X19. An uploaded file that is not a PDF and not UTF-8, with no PDF
    uploaded before it, crashes every run of the script with
    UnicodeDecodeError right after the uploader, button pressed or not and
    whatever is uploaded after it: no crew is kicked off and a stored result
    is not displayed. *)
Theorem undecodable_upload_crashes_every_run {Exn}
    (page_texts : list Byte.byte → list (option str))
    (decode_utf8 : list Byte.byte → option str)
    (crew_kickoff : Crew → Exn + CrewOutput)
    (before after : list UploadedFile) (f : UploadedFile) (button : bool)
    (environ state : gmap str str) :
  Forall (fun g => type g ≠ lit "application/pdf") before →
  undecodable decode_utf8 f →
  main_ui page_texts decode_utf8 crew_kickoff (before ++ f :: after) button
    environ (fresh state)
  = (Crash UnicodeDecodeError,
     {| session_state := state; kickoffs := []; ui := HEAD_EVENTS |}).
Proof.
  intros _ [Htype Hdec]. rewrite main_ui_steps.
  assert (build_full_text page_texts decode_utf8 (before ++ f :: after) = None)
    as ->; [|done].
  rewrite build_full_text_mapM, fmap_None, mapM_None.
  apply Exists_app. right. apply Exists_cons_hd.
  unfold file_text. by rewrite bool_decide_eq_false_2.
Qed.

Lemma undecodable_upload_crashes_every_run_witness :
  main_ui pages_of_sample decode_ascii reporting_kickoff
    ([file_A] ++ file_latin1 :: [file_pdf]) false
    environ_with_key (fresh {[ RAW_OUTPUT := twice_summary ]})
  = (Crash UnicodeDecodeError,
     {| session_state := {[ RAW_OUTPUT := twice_summary ]}; kickoffs := [];
        ui := HEAD_EVENTS |}).
Proof.
  apply (undecodable_upload_crashes_every_run pages_of_sample decode_ascii
           reporting_kickoff [file_A] [file_pdf] file_latin1 false
           environ_with_key {[ RAW_OUTPUT := twice_summary ]}).
  - repeat constructor. by vm_compute.
  - split; by vm_compute.
Defined.

(** X20. The display never fails on a missing section: whatever is
    uploaded, pressed, configured, stored or returned by the crew, the
    script does not end with a KeyError. *)
Theorem script_never_raises_KeyError {Exn}
    (page_texts : list Byte.byte → list (option str))
    (decode_utf8 : list Byte.byte → option str)
    (crew_kickoff : Crew → Exn + CrewOutput)
    (uploaded : list UploadedFile) (button : bool)
    (environ state : gmap str str) (key : str) :
  (main_ui page_texts decode_utf8 crew_kickoff uploaded button environ (fresh state)).1
  ≠ Crash (KeyError key).
Proof.
  assert (∀ p : page, (display (Exn := Exn) p).1 ≠ Crash (KeyError key)) as Hdisplay.
  { intros p. destruct (session_state p !! RAW_OUTPUT) as [raw|] eqn:Hraw.
    - by rewrite (display_stored _ raw).
    - by rewrite display_nothing. }
  rewrite main_ui_steps.
  destruct (build_full_text page_texts decode_utf8 uploaded) as [full_text|];
    [|done].
  cbv zeta. destruct button; [|apply Hdisplay].
  destruct (decide (strip full_text = [])) as [Hnone|Hsome].
  - by rewrite run_agents_no_text.
  - rewrite run_agents_text by done.
    destruct (run_meeting_prep_crew _ _ _ _) as [[final_output|e] log];
      [apply Hdisplay | done].
Qed.
